(** * The physics engine of the game framework: model and verified properties

    The source is the TypeScript class [PhysicsEngine]: a fixed-step
    scheduler ([update]), a semi-implicit Euler integrator ([step]), an
    all-pairs AABB test ([checkCollisions], [isColliding]) and an impulse
    resolver with positional correction ([resolveCollision]).

    Numbers.  A TypeScript [number] is an IEEE double.  The model keeps the
    one special value the engine can itself produce, [NaN] (from [0 / 0] when
    two box centres coincide), and idealises every other value to a real
    number: there is no rounding, no overflow, no infinity and no signed
    zero.

    Objects.  A [PhysicsBody] is a mutable object owned by the caller; the
    engine keeps references in a [Set].  The model has a heap from references
    to body records and a registry of references in insertion order. *)

From Stdlib Require Import Reals Lra Lia ZArith List Bool Permutation.
Import ListNotations.

Local Open Scope R_scope.

(** ** Numbers *)

Inductive number : Type :=
| Num (r : R)
| NaN.

Declare Scope js_scope.
Delimit Scope js_scope with js.
Bind Scope js_scope with number.

Module Number.

Definition lift1 (f : R -> R) (a : number) : number :=
  match a with
  | Num u => Num (f u)
  | NaN => NaN
  end.

Definition lift2 (f : R -> R -> R) (a b : number) : number :=
  match a, b with
  | Num u, Num v => Num (f u v)
  | _, _ => NaN
  end.

Definition add : number -> number -> number := lift2 Rplus.
Definition sub : number -> number -> number := lift2 Rminus.
Definition mul : number -> number -> number := lift2 Rmult.
Definition neg : number -> number := lift1 Ropp.

(** A quotient by zero is [NaN].  The engine divides by the constants
    [2] and [fixedTimeStep], and by the centre distance, which is zero only
    when the dividend is zero too (lemma [length_zero_centres]): in the
    source that quotient is [0 / 0], which is [NaN]. *)
Definition div (a b : number) : number :=
  match a, b with
  | Num u, Num v => if Req_dec_T v 0 then NaN else Num (u / v)
  | _, _ => NaN
  end.

(** Comparisons with [NaN] are false. *)
Definition lt (a b : number) : bool :=
  match a, b with
  | Num u, Num v => if Rlt_dec u v then true else false
  | _, _ => false
  end.

Definition gt (a b : number) : bool := lt b a.

Definition le (a b : number) : bool :=
  match a, b with
  | Num u, Num v => if Rle_dec u v then true else false
  | _, _ => false
  end.

End Number.

Notation "a + b" := (Number.add a b) : js_scope.
Notation "a - b" := (Number.sub a b) : js_scope.
Notation "a * b" := (Number.mul a b) : js_scope.
Notation "a / b" := (Number.div a b) : js_scope.
Notation "- a" := (Number.neg a) : js_scope.
Notation "a <? b" := (Number.lt a b) (at level 70) : js_scope.
Notation "a >? b" := (Number.gt a b) (at level 70) : js_scope.
Notation "a <=? b" := (Number.le a b) (at level 70) : js_scope.

(** The smallest integer that is not below [r]. *)
Definition Zceil (r : R) : Z := (- Int_part (- r))%Z.

Module Math.

Definition min (a b : number) : number := Number.lift2 Rmin a b.
Definition max (a b : number) : number := Number.lift2 Rmax a b.
Definition abs (a : number) : number := Number.lift1 Rabs a.

Definition ceil (a : number) : number :=
  Number.lift1 (fun u => IZR (Zceil u)) a.

Definition sqrt (a : number) : number :=
  match a with
  | Num u => if Rlt_dec u 0 then NaN else Num (R_sqrt.sqrt u)
  | NaN => NaN
  end.

End Math.

(** ** Bodies, heap and engine *)

Record Vector2 : Type := mkVector2 { x : number; y : number }.

Record Bounds : Type := mkBounds { width : number; height : number }.

Record PhysicsBody : Type := mkBody {
  position : Vector2;
  velocity : Vector2;
  acceleration : Vector2;
  mass : number;
  restitution : number;
  friction : number;
  isStatic : bool;
  bounds : Bounds
}.

Definition set_position (p : Vector2) (b : PhysicsBody) : PhysicsBody :=
  mkBody p (velocity b) (acceleration b) (mass b) (restitution b)
         (friction b) (isStatic b) (bounds b).

Definition set_velocity (v : Vector2) (b : PhysicsBody) : PhysicsBody :=
  mkBody (position b) v (acceleration b) (mass b) (restitution b)
         (friction b) (isStatic b) (bounds b).

Definition set_acceleration (a : Vector2) (b : PhysicsBody) : PhysicsBody :=
  mkBody (position b) (velocity b) a (mass b) (restitution b)
         (friction b) (isStatic b) (bounds b).

(** A reference to a body object. *)
Definition ref : Type := nat.

(** Every reference denotes an object. *)
Definition Heap : Type := ref -> PhysicsBody.

Definition write (r : ref) (b : PhysicsBody) (h : Heap) : Heap :=
  fun r' => if Nat.eqb r' r then b else h r'.

Record PhysicsConfig : Type := mkConfig {
  cfg_gravity : option Vector2;
  cfg_timeScale : option number;
  cfg_maxSteps : option number
}.

(** [bodies] is the [Set<PhysicsBody>] of the source: references without
    repetition, iterated in insertion order. *)
Record PhysicsEngine : Type := mkEngine {
  gravity : Vector2;
  timeScale : number;
  maxSteps : number;
  bodies : list ref
}.

(** The private field [fixedTimeStep = 1 / 60], never assigned after
    construction. *)
Definition fixedTimeStep : number := Num (1 / 60).

Definition new_PhysicsEngine : PhysicsEngine :=
  mkEngine (mkVector2 (Num 0) (Num (981 / 100))) (Num 1) (Num 3) [].

(** ** Configuration and registry *)

Definition initialize (config : PhysicsConfig) (e : PhysicsEngine)
  : PhysicsEngine :=
  mkEngine
    (match cfg_gravity config with Some g => g | None => gravity e end)
    (match cfg_timeScale config with Some s => s | None => Num 1 end)
    (match cfg_maxSteps config with Some m => m | None => Num 3 end)
    (bodies e).

(** [Set.prototype.add]: a member is not added again; a new element goes
    last in iteration order. *)
Definition set_add (r : ref) (s : list ref) : list ref :=
  if existsb (Nat.eqb r) s then s else s ++ [r].

(** [Set.prototype.delete]. *)
Definition set_delete (r : ref) (s : list ref) : list ref :=
  filter (fun r' => negb (Nat.eqb r' r)) s.

Definition addBody (body : ref) (e : PhysicsEngine) : PhysicsEngine :=
  mkEngine (gravity e) (timeScale e) (maxSteps e) (set_add body (bodies e)).

Definition removeBody (body : ref) (e : PhysicsEngine) : PhysicsEngine :=
  mkEngine (gravity e) (timeScale e) (maxSteps e) (set_delete body (bodies e)).

Definition setGravity (gx gy : number) (e : PhysicsEngine) : PhysicsEngine :=
  mkEngine (mkVector2 gx gy) (timeScale e) (maxSteps e) (bodies e).

Definition setTimeScale (scale : number) (e : PhysicsEngine) : PhysicsEngine :=
  mkEngine (gravity e) (Math.max (Num 0) scale) (maxSteps e) (bodies e).

(** [getBodies] returns a fresh [Set] with the same members. *)
Definition getBodies (e : PhysicsEngine) : list ref := bodies e.

(** ** Integration: the first loop of [step] *)

Definition applyGravity (g : Vector2) (body : PhysicsBody) : PhysicsBody :=
  set_acceleration
    (mkVector2 (x (acceleration body) + x g) (y (acceleration body) + y g))%js
    body.

Definition updateVelocity (deltaTime : number) (body : PhysicsBody)
  : PhysicsBody :=
  set_velocity
    (mkVector2 (x (velocity body) + x (acceleration body) * deltaTime)
               (y (velocity body) + y (acceleration body) * deltaTime))%js
    body.

Definition updatePosition (deltaTime : number) (body : PhysicsBody)
  : PhysicsBody :=
  set_position
    (mkVector2 (x (position body) + x (velocity body) * deltaTime)
               (y (position body) + y (velocity body) * deltaTime))%js
    body.

Definition resetAcceleration (body : PhysicsBody) : PhysicsBody :=
  set_acceleration (mkVector2 (Num 0) (Num 0)) body.

(** The loop body for a body that is not static, in the order of the
    source's statements. *)
Definition integrate (g : Vector2) (deltaTime : number) (body : PhysicsBody)
  : PhysicsBody :=
  resetAcceleration
    (updatePosition deltaTime
       (updateVelocity deltaTime
          (applyGravity g body))).

Definition integrateBody (g : Vector2) (deltaTime : number) (h : Heap)
  (r : ref) : Heap :=
  if isStatic (h r) then h else write r (integrate g deltaTime (h r)) h.

Definition integrateAll (e : PhysicsEngine) (deltaTime : number) (h : Heap)
  : Heap :=
  fold_left (integrateBody (gravity e) deltaTime) (bodies e) h.

(** ** Collision detection *)

Definition isColliding (bodyA bodyB : PhysicsBody) : bool :=
  let aLeft := x (position bodyA) in
  let aRight := (x (position bodyA) + width (bounds bodyA))%js in
  let aTop := y (position bodyA) in
  let aBottom := (y (position bodyA) + height (bounds bodyA))%js in
  let bLeft := x (position bodyB) in
  let bRight := (x (position bodyB) + width (bounds bodyB))%js in
  let bTop := y (position bodyB) in
  let bBottom := (y (position bodyB) + height (bounds bodyB))%js in
  negb ((aRight <? bLeft)%js
        || (aLeft >? bRight)%js
        || (aBottom <? bTop)%js
        || (aTop >? bBottom)%js).

(** ** Collision resolution *)

(** The local constants of [resolveCollision], as functions of the two
    bodies at entry.  The position writes come after the last read of them. *)
Module Contact.

Definition dx (bodyA bodyB : PhysicsBody) : number :=
  (x (position bodyB) + width (bounds bodyB) / Num 2
   - (x (position bodyA) + width (bounds bodyA) / Num 2))%js.

Definition dy (bodyA bodyB : PhysicsBody) : number :=
  (y (position bodyB) + height (bounds bodyB) / Num 2
   - (y (position bodyA) + height (bounds bodyA) / Num 2))%js.

Definition length (bodyA bodyB : PhysicsBody) : number :=
  Math.sqrt (dx bodyA bodyB * dx bodyA bodyB
             + dy bodyA bodyB * dy bodyA bodyB)%js.

Definition nx (bodyA bodyB : PhysicsBody) : number :=
  (dx bodyA bodyB / length bodyA bodyB)%js.

Definition ny (bodyA bodyB : PhysicsBody) : number :=
  (dy bodyA bodyB / length bodyA bodyB)%js.

Definition relativeVelocityX (bodyA bodyB : PhysicsBody) : number :=
  (x (velocity bodyB) - x (velocity bodyA))%js.

Definition relativeVelocityY (bodyA bodyB : PhysicsBody) : number :=
  (y (velocity bodyB) - y (velocity bodyA))%js.

Definition relativeVelocity (bodyA bodyB : PhysicsBody) : number :=
  (relativeVelocityX bodyA bodyB * nx bodyA bodyB
   + relativeVelocityY bodyA bodyB * ny bodyA bodyB)%js.

Definition restitution (bodyA bodyB : PhysicsBody) : number :=
  Math.min (restitution bodyA) (restitution bodyB).

(** [let impulse = -(1 + restitution) * relativeVelocity], then
    [impulse /= 2] when neither body is static. *)
Definition impulse (bodyA bodyB : PhysicsBody) : number :=
  let impulse :=
    (- (Num 1 + restitution bodyA bodyB) * relativeVelocity bodyA bodyB)%js in
  if negb (isStatic bodyA) && negb (isStatic bodyB)
  then (impulse / Num 2)%js
  else impulse.

Definition overlap (bodyA bodyB : PhysicsBody) : number :=
  ((width (bounds bodyA) + width (bounds bodyB)) / Num 2
   - Math.abs (dx bodyA bodyB))%js.

End Contact.

(** The velocity writes of [resolveCollision]. *)
Definition applyImpulse (bodyA bodyB : PhysicsBody)
  : PhysicsBody * PhysicsBody :=
  let impulse := Contact.impulse bodyA bodyB in
  let nx := Contact.nx bodyA bodyB in
  let ny := Contact.ny bodyA bodyB in
  let bodyA' :=
    if negb (isStatic bodyA)
    then set_velocity
           (mkVector2 (x (velocity bodyA) - impulse * nx)
                      (y (velocity bodyA) - impulse * ny))%js bodyA
    else bodyA in
  let bodyB' :=
    if negb (isStatic bodyB)
    then set_velocity
           (mkVector2 (x (velocity bodyB) + impulse * nx)
                      (y (velocity bodyB) + impulse * ny))%js bodyB
    else bodyB in
  (bodyA', bodyB').

(** The position writes of [resolveCollision]; [bodyA] and [bodyB] are the
    bodies at entry, [bodyA'] and [bodyB'] the bodies after the impulse. *)
Definition separate (bodyA bodyB bodyA' bodyB' : PhysicsBody)
  : PhysicsBody * PhysicsBody :=
  let overlap := Contact.overlap bodyA bodyB in
  let nx := Contact.nx bodyA bodyB in
  let ny := Contact.ny bodyA bodyB in
  if (overlap >? Num 0)%js then
    if negb (isStatic bodyA) && negb (isStatic bodyB) then
      (set_position
         (mkVector2 (x (position bodyA') - (overlap * nx) / Num 2)
                    (y (position bodyA') - (overlap * ny) / Num 2))%js bodyA',
       set_position
         (mkVector2 (x (position bodyB') + (overlap * nx) / Num 2)
                    (y (position bodyB') + (overlap * ny) / Num 2))%js bodyB')
    else if negb (isStatic bodyA) then
      (set_position
         (mkVector2 (x (position bodyA') - overlap * nx)
                    (y (position bodyA') - overlap * ny))%js bodyA',
       bodyB')
    else if negb (isStatic bodyB) then
      (bodyA',
       set_position
         (mkVector2 (x (position bodyB') + overlap * nx)
                    (y (position bodyB') + overlap * ny))%js bodyB')
    else (bodyA', bodyB')
  else (bodyA', bodyB').

(** [resolveCollision] on two different objects: the pair of bodies after
    the call. *)
Definition resolveCollision (bodyA bodyB : PhysicsBody)
  : PhysicsBody * PhysicsBody :=
  if isStatic bodyA && isStatic bodyB then (bodyA, bodyB)
  else if (Contact.relativeVelocity bodyA bodyB >? Num 0)%js
  then (bodyA, bodyB)
  else
    let (bodyA', bodyB') := applyImpulse bodyA bodyB in
    separate bodyA bodyB bodyA' bodyB'.

(** The index pairs [i < j] of the two nested loops of [checkCollisions],
    in the order the loops visit them. *)
Fixpoint pairs (l : list ref) : list (ref * ref) :=
  match l with
  | [] => []
  | a :: t => map (pair a) t ++ pairs t
  end.

(** One iteration of the inner loop.  The two references come from
    different indices of an array made from a [Set], so they denote
    different objects (lemma [pairs_distinct]). *)
Definition collide (h : Heap) (p : ref * ref) : Heap :=
  let (ra, rb) := p in
  if isColliding (h ra) (h rb) then
    let (bodyA', bodyB') := resolveCollision (h ra) (h rb) in
    write rb bodyB' (write ra bodyA' h)
  else h.

Definition checkCollisions (e : PhysicsEngine) (h : Heap) : Heap :=
  fold_left collide (pairs (bodies e)) h.

(** ** Stepping *)

Definition step (e : PhysicsEngine) (deltaTime : number) (h : Heap) : Heap :=
  checkCollisions e (integrateAll e deltaTime h).

(** [const steps = Math.min(maxSteps, Math.ceil(scaledDeltaTime / fixedTimeStep))] *)
Definition steps (e : PhysicsEngine) (deltaTime : number) : number :=
  let scaledDeltaTime := (deltaTime * timeScale e)%js in
  Math.min (maxSteps e) (Math.ceil (scaledDeltaTime / fixedTimeStep)%js).

(** [for (let i = 0; i < bound; i++) body], started at counter [i] with
    fuel for [fuel] iterations. *)
Fixpoint for_from {S : Type} (fuel : nat) (i : nat) (bound : number)
  (body : S -> S) (s : S) : S :=
  match fuel with
  | O => s
  | Datatypes.S fuel' =>
      if (Num (INR i) <? bound)%js
      then for_from fuel' (Datatypes.S i) bound body (body s)
      else s
  end.

(** Fuel that lets the loop run to the failure of its test
    (lemma [for_count_exit]). *)
Definition for_count (bound : number) : nat :=
  match bound with
  | Num u => Z.to_nat (Zceil u)
  | NaN => O
  end.

Definition for_loop {S : Type} (bound : number) (body : S -> S) (s : S) : S :=
  for_from (for_count bound) 0 bound body s.

(** [update] with the callee of its loop as a parameter. *)
Definition update_with {S : Type} (stepf : number -> S -> S)
  (e : PhysicsEngine) (deltaTime : number) (s : S) : S :=
  for_loop (steps e deltaTime) (stepf fixedTimeStep) s.

Definition update (e : PhysicsEngine) (deltaTime : number) (h : Heap) : Heap :=
  update_with (step e) e deltaTime h.

(** The arguments of the successive calls of [step] made by one [update]:
    [update] run with a callee that records its argument. *)
Definition update_calls (e : PhysicsEngine) (deltaTime : number)
  : list number :=
  update_with (fun d log => log ++ [d]) e deltaTime [].

(** ** Sequences of calls of the public methods *)

Inductive call : Type :=
| Initialize (config : PhysicsConfig)
| AddBody (body : ref)
| RemoveBody (body : ref)
| Update (deltaTime : number)
| SetGravity (gx gy : number)
| SetTimeScale (scale : number)
| GetBodies.

Definition World : Type := (PhysicsEngine * Heap)%type.

Definition exec (w : World) (c : call) : World :=
  let (e, h) := w in
  match c with
  | Initialize config => (initialize config e, h)
  | AddBody body => (addBody body e, h)
  | RemoveBody body => (removeBody body e, h)
  | Update deltaTime => (e, update e deltaTime h)
  | SetGravity gx gy => (setGravity gx gy e, h)
  | SetTimeScale scale => (setTimeScale scale e, h)
  | GetBodies => (e, h)
  end.

Definition run (cs : list call) (w : World) : World := fold_left exec cs w.

(** ** Sample bodies *)

(** A box with top-left corner [(px, py)], size [w] by [ht], velocity
    [(vx, vy)] and restitution [rest]; mass 1, no friction and an empty
    acceleration accumulator. *)
Definition box (px py w ht vx vy rest : R) (static : bool) : PhysicsBody :=
  mkBody (mkVector2 (Num px) (Num py))
         (mkVector2 (Num vx) (Num vy))
         (mkVector2 (Num 0) (Num 0))
         (Num 1) (Num rest) (Num 0) static
         (mkBounds (Num w) (Num ht)).

(** A heap in which every reference denotes the same kind of body. *)
Definition heap_of (b : PhysicsBody) : Heap := fun _ => b.

(** A heap with [b0] at reference 0 and [b1] at every other reference. *)
Definition heap_of2 (b0 b1 : PhysicsBody) : Heap :=
  fun r => match r with O => b0 | _ => b1 end.

(** The component of a body's velocity along the collision normal of the
    pair [(bodyA, bodyB)]. *)
Definition normalVelocity (bodyA bodyB body : PhysicsBody) : number :=
  (x (velocity body) * Contact.nx bodyA bodyB
   + y (velocity body) * Contact.ny bodyA bodyB)%js.

(** The component of a body's velocity across the collision normal of the
    pair [(bodyA, bodyB)]. *)
Definition tangentVelocity (bodyA bodyB body : PhysicsBody) : number :=
  (y (velocity body) * Contact.nx bodyA bodyB
   - x (velocity body) * Contact.ny bodyA bodyB)%js.

(** [b'] has the fields of [b] other than [mass], [friction] and the
    acceleration accumulator. *)
Definition same_kinematics (b b' : PhysicsBody) : Prop :=
  position b' = position b /\ velocity b' = velocity b
  /\ restitution b' = restitution b /\ isStatic b' = isStatic b
  /\ bounds b' = bounds b.

(** The squared speed of a body: twice its kinetic energy per unit of
    mass. *)
Definition speedSquared (body : PhysicsBody) : number :=
  (x (velocity body) * x (velocity body)
   + y (velocity body) * y (velocity body))%js.

(** ** Relations between heaps and between bodies *)

(** Two heaps hold the same bodies at the references of [l]. *)
Definition agree (l : list ref) (h1 h2 : Heap) : Prop :=
  forall r, In r l -> h1 r = h2 r.

(** [b'] has the fields of [b] that describe the body rather than its
    motion. *)
Definition same_parameters (b b' : PhysicsBody) : Prop :=
  isStatic b' = isStatic b /\ mass b' = mass b
  /\ restitution b' = restitution b /\ friction b' = friction b
  /\ bounds b' = bounds b.

(** * Properties *)

(** ** Numbers *)

Section NumberFacts.

Lemma lt_Num (u v : R) : (Num u <? Num v)%js = true <-> u < v.
Proof.
  unfold Number.lt. destruct (Rlt_dec u v); split; intros; try easy.
Qed.

Lemma lt_Num_false (u v : R) : (Num u <? Num v)%js = false <-> v <= u.
Proof.
  unfold Number.lt. destruct (Rlt_dec u v); split; intros; try easy; lra.
Qed.

Lemma gt_Num (u v : R) : (Num u >? Num v)%js = true <-> u > v.
Proof. unfold Number.gt. rewrite lt_Num. lra. Qed.

Lemma gt_Num_false (u v : R) : (Num u >? Num v)%js = false <-> u <= v.
Proof. unfold Number.gt. apply lt_Num_false. Qed.

Lemma le_Num (u v : R) : (Num u <=? Num v)%js = true <-> u <= v.
Proof.
  unfold Number.le. destruct (Rle_dec u v); split; intros; try easy.
Qed.

Lemma lt_true_Num (a b : number) :
  (a <? b)%js = true -> exists u v, a = Num u /\ b = Num v /\ u < v.
Proof.
  destruct a as [u|], b as [v|]; try discriminate.
  intros H. exists u, v. rewrite lt_Num in H. auto.
Qed.

Lemma le_true_Num (a b : number) :
  (a <=? b)%js = true -> exists u v, a = Num u /\ b = Num v /\ u <= v.
Proof.
  destruct a as [u|], b as [v|]; try discriminate.
  intros H. exists u, v. rewrite le_Num in H. auto.
Qed.

Lemma div_Num (u v : R) : v <> 0 -> (Num u / Num v)%js = Num (u / v).
Proof.
  intros Hv. unfold Number.div. destruct (Req_dec_T v 0); easy.
Qed.

Lemma div_Num_inv (a b : number) (w : R) :
  (a / b)%js = Num w ->
  exists u v, a = Num u /\ b = Num v /\ v <> 0 /\ w = u / v.
Proof.
  destruct a as [u|], b as [v|]; try discriminate.
  unfold Number.div. destruct (Req_dec_T v 0); try discriminate.
  intros [= <-]. exists u, v. auto.
Qed.

Lemma lift2_Num_inv (f : R -> R -> R) (a b : number) (w : R) :
  Number.lift2 f a b = Num w ->
  exists u v, a = Num u /\ b = Num v /\ w = f u v.
Proof.
  destruct a as [u|], b as [v|]; try discriminate.
  intros [= <-]. exists u, v. auto.
Qed.

Lemma Zceil_bounds (r : R) : IZR (Zceil r) - 1 < r <= IZR (Zceil r).
Proof.
  unfold Zceil. rewrite opp_IZR.
  destruct (base_Int_part (- r)) as [H1 H2]. lra.
Qed.

Lemma Zceil_unique (r : R) (n : Z) : IZR n - 1 < r <= IZR n -> Zceil r = n.
Proof.
  intros [H1 H2]. destruct (Zceil_bounds r) as [H3 H4].
  assert (IZR n < IZR (Zceil r) + 1) as Ha by lra.
  assert (IZR (Zceil r) < IZR n + 1) as Hb by lra.
  rewrite <- plus_IZR in Ha, Hb. apply lt_IZR in Ha, Hb. lia.
Qed.

Lemma Zceil_IZR (n : Z) : Zceil (IZR n) = n.
Proof. apply Zceil_unique. lra. Qed.

(** For an integer [n]: [n < ceil r] exactly when [n < r]. *)
Lemma lt_Zceil (n : Z) (r : R) : (n < Zceil r)%Z <-> IZR n < r.
Proof.
  destruct (Zceil_bounds r) as [H1 H2]. split; intros H.
  - assert (n + 1 <= Zceil r)%Z as H' by lia.
    apply IZR_le in H'. rewrite plus_IZR in H'. lra.
  - apply lt_IZR. lra.
Qed.

End NumberFacts.

(** ** The [for] loop of [update] *)

Section ForLoop.

Context {S : Type}.
Variable body : S -> S.

(** The loop test holds for exactly the counters below [for_count]. *)
Lemma for_count_spec (bound : number) (i : nat) :
  (i < for_count bound)%nat <-> (Num (INR i) <? bound)%js = true.
Proof.
  destruct bound as [u|]; cbn [for_count].
  - rewrite lt_Num, INR_IZR_INZ, <- lt_Zceil. lia.
  - split; [lia | discriminate].
Qed.

(** The fuel of [for_loop] suffices: the loop ends on a failed test. *)
Lemma for_count_exit (bound : number) :
  (Num (INR (for_count bound)) <? bound)%js = false.
Proof.
  destruct (Num (INR (for_count bound)) <? bound)%js eqn:E; [|reflexivity].
  apply for_count_spec in E. lia.
Qed.

Lemma for_from_iter (bound : number) (fuel i : nat) (s : S) :
  (i + fuel <= for_count bound)%nat ->
  for_from fuel i bound body s = Nat.iter fuel body s.
Proof.
  revert i s. induction fuel as [|fuel IH]; intros i s Hle; [reflexivity|].
  cbn [for_from].
  assert ((Num (INR i) <? bound)%js = true) as ->
    by (apply for_count_spec; lia).
  rewrite IH by lia. symmetry. apply Nat.iter_succ_r.
Qed.

Lemma for_loop_iter (bound : number) (s : S) :
  for_loop bound body s = Nat.iter (for_count bound) body s.
Proof. unfold for_loop. apply for_from_iter. lia. Qed.

Lemma for_from_exit (bound : number) (fuel : nat) (s : S) :
  for_from fuel (for_count bound) bound body s = s.
Proof.
  destruct fuel; [reflexivity|]. cbn [for_from].
  now rewrite for_count_exit.
Qed.

(** More fuel does not change the result. *)
Lemma for_from_more_fuel (bound : number) (extra : nat) (s : S) :
  for_from (for_count bound + extra) 0 bound body s = for_loop bound body s.
Proof.
  unfold for_loop.
  assert (forall fuel i s',
             (i + fuel = for_count bound)%nat ->
             for_from (fuel + extra) i bound body s'
             = for_from fuel i bound body s') as H.
  { induction fuel as [|fuel IH]; intros i s' Hi.
    - simpl in *. rewrite Nat.add_0_r in Hi. subst i.
      apply for_from_exit.
    - cbn [for_from Nat.add].
      destruct (Num (INR i) <? bound)%js; [|reflexivity].
      apply IH. lia. }
  apply H. lia.
Qed.

End ForLoop.

(** ** The scheduler *)

Section Scheduler.

Lemma Zceil_nonneg (r : R) : 0 <= r -> (0 <= Zceil r)%Z.
Proof.
  intros Hr. destruct (Zceil_bounds r) as [_ H].
  apply le_IZR. lra.
Qed.

Lemma Zceil_le (r : R) (n : Z) : r <= IZR n -> (Zceil r <= n)%Z.
Proof.
  intros Hr. destruct (Z.le_gt_cases (Zceil r) n) as [|Hlt]; [assumption|].
  apply lt_Zceil in Hlt. lra.
Qed.

Lemma Rmin_IZR (m n : Z) : Rmin (IZR m) (IZR n) = IZR (Z.min m n).
Proof.
  destruct (Z.le_gt_cases m n) as [Hle|Hgt].
  - rewrite Z.min_l by assumption. apply Rmin_left. now apply IZR_le.
  - rewrite Z.min_r by lia. apply Rmin_right. apply IZR_le. lia.
Qed.

Lemma sixtieth_neq_0 : 1 / 60 <> 0.
Proof. lra. Qed.

(** [steps] on real arguments. *)
Lemma steps_Num (e : PhysicsEngine) (M ts d : R) :
  maxSteps e = Num M -> timeScale e = Num ts ->
  steps e (Num d) = Num (Rmin M (IZR (Zceil (d * ts / (1 / 60))))).
Proof.
  intros HM Hts. unfold steps, fixedTimeStep. rewrite HM, Hts.
  cbn [Number.mul Number.lift2]. rewrite div_Num by apply sixtieth_neq_0.
  reflexivity.
Qed.

Lemma update_with_iter {S : Type} (stepf : number -> S -> S)
  (e : PhysicsEngine) (deltaTime : number) (s : S) :
  update_with stepf e deltaTime s
  = Nat.iter (for_count (steps e deltaTime)) (stepf fixedTimeStep) s.
Proof. unfold update_with. apply for_loop_iter. Qed.

Lemma iter_log (d : number) (n : nat) (log : list number) :
  Nat.iter n (fun log => log ++ [d]) log = log ++ repeat d n.
Proof.
  induction n as [|n IH]; simpl.
  - now rewrite app_nil_r.
  - rewrite IH, <- app_assoc. f_equal.
    change (d :: repeat d n) with (repeat d (Datatypes.S n)).
    now rewrite <- repeat_cons.
Qed.

Lemma update_calls_repeat (e : PhysicsEngine) (deltaTime : number) :
  update_calls e deltaTime
  = repeat fixedTimeStep (for_count (steps e deltaTime)).
Proof.
  unfold update_calls. rewrite update_with_iter. apply iter_log.
Qed.

Lemma update_iter (e : PhysicsEngine) (deltaTime : number) (h : Heap) :
  update e deltaTime h
  = Nat.iter (for_count (steps e deltaTime)) (step e fixedTimeStep) h.
Proof. apply update_with_iter. Qed.

(** With an integer [maxSteps = m >= 0], a real [timeScale = ts >= 0] and a
    real [deltaTime = d >= 0], the loop bound is the integer
    [min m (ceil (d * ts / (1/60)))], which is not negative. *)
Lemma for_count_steps (e : PhysicsEngine) (m : Z) (ts d : R) :
  maxSteps e = Num (IZR m) -> timeScale e = Num ts ->
  (0 <= m)%Z -> 0 <= ts -> 0 <= d ->
  steps e (Num d) = Num (IZR (Z.min m (Zceil (d * ts / (1 / 60)))))
  /\ for_count (steps e (Num d))
     = Z.to_nat (Z.min m (Zceil (d * ts / (1 / 60)))).
Proof.
  intros HM Hts Hm Hts0 Hd.
  rewrite (steps_Num e _ _ _ HM Hts), Rmin_IZR. split; [reflexivity|].
  cbn [for_count]. now rewrite Zceil_IZR.
Qed.

End Scheduler.

Section SchedulerBounds.

Variables (m : Z) (ts d : R).
Hypothesis Hts : 0 < ts.

Lemma scaled_le_maxSteps :
  d <= IZR m * (1 / 60) / ts -> d * ts / (1 / 60) <= IZR m.
Proof.
  intros H.
  apply Rmult_le_compat_r with (r := ts * 60) in H; [|lra].
  replace (IZR m * (1 / 60) / ts * (ts * 60)) with (IZR m) in H
    by (field; lra).
  lra.
Qed.

Lemma scaled_gt_maxSteps :
  d > IZR m * (1 / 60) / ts -> d * ts / (1 / 60) > IZR m.
Proof.
  intros H.
  apply Rmult_lt_compat_r with (r := ts * 60) in H; [|lra].
  replace (IZR m * (1 / 60) / ts * (ts * 60)) with (IZR m) in H
    by (field; lra).
  lra.
Qed.

End SchedulerBounds.




(** ** Arithmetic of [number] *)

Ltac num_cases :=
  repeat match goal with
    | a : number |- _ => destruct a
    end;
  cbn [Number.add Number.sub Number.mul Number.neg Number.lift1 Number.lift2];
  try reflexivity.

Lemma add_0_l (a : number) : (Num 0 + a)%js = a.
Proof. num_cases. f_equal. ring. Qed.

Lemma mul_assoc (a b c : number) : (a * (b * c))%js = (a * b * c)%js.
Proof. num_cases. f_equal. ring. Qed.

(** ** The heap *)

Lemma write_same (r : ref) (b : PhysicsBody) (h : Heap) : write r b h r = b.
Proof. unfold write. now rewrite Nat.eqb_refl. Qed.

Lemma write_other (r r' : ref) (b : PhysicsBody) (h : Heap) :
  r' <> r -> write r b h r' = h r'.
Proof.
  intros Hne. unfold write.
  destruct (Nat.eqb_spec r' r); [contradiction | reflexivity].
Qed.

(** ** Integration *)



(** ** Collision detection *)

(** C4.  [isColliding] answers [false] exactly when one of the four strict
    separating tests holds, the edges being the top-left corner [position]
    and that corner plus [bounds]; boxes that touch collide.  The boxes
    [0,0,10,10] and [5,5,10,10] collide, [0,0,10,10] and [11,0,10,10] do
    not, and [0,0,10,10] and [10,0,10,10], which share an edge, do. *)
Theorem C4_isColliding_separating (bodyA bodyB : PhysicsBody) :
  let aLeft := x (position bodyA) in
  let aRight := (x (position bodyA) + width (bounds bodyA))%js in
  let aTop := y (position bodyA) in
  let aBottom := (y (position bodyA) + height (bounds bodyA))%js in
  let bLeft := x (position bodyB) in
  let bRight := (x (position bodyB) + width (bounds bodyB))%js in
  let bTop := y (position bodyB) in
  let bBottom := (y (position bodyB) + height (bounds bodyB))%js in
  (isColliding bodyA bodyB = false <->
     (aRight <? bLeft)%js = true \/ (aLeft >? bRight)%js = true
     \/ (aBottom <? bTop)%js = true \/ (aTop >? bBottom)%js = true)
  /\ (forall s1 s2 v1 v2 v3 v4 r1 r2,
         isColliding (box 0 0 10 10 v1 v2 r1 s1) (box 5 5 10 10 v3 v4 r2 s2)
         = true
         /\ isColliding (box 0 0 10 10 v1 v2 r1 s1)
              (box 11 0 10 10 v3 v4 r2 s2)
            = false
         /\ isColliding (box 0 0 10 10 v1 v2 r1 s1)
              (box 10 0 10 10 v3 v4 r2 s2)
            = true).
Proof.
  cbv zeta. split.
  - unfold isColliding. rewrite negb_false_iff, !orb_true_iff. tauto.
  - intros. unfold isColliding, box, Number.gt.
    cbn [position bounds x y width height Number.add Number.lift2].
    repeat split.
    + rewrite negb_true_iff, !orb_false_iff, !lt_Num_false.
      repeat split; lra.
    + rewrite negb_false_iff, !orb_true_iff, !lt_Num. left. left. left. lra.
    + rewrite negb_true_iff, !orb_false_iff, !lt_Num_false.
      repeat split; lra.
Qed.

(** ** Collision resolution *)

(** C7.  When the relative velocity along the normal is positive, the
    resolver returns both bodies as they were; through [checkCollisions]'s
    loop body the heap then denotes the same bodies as before, also when
    the boxes overlap. *)
Theorem C7_separating_pair_skipped (bodyA bodyB : PhysicsBody) :
  (Contact.relativeVelocity bodyA bodyB >? Num 0)%js = true ->
  resolveCollision bodyA bodyB = (bodyA, bodyB)
  /\ forall (h : Heap) (ra rb : ref),
       h ra = bodyA -> h rb = bodyB ->
       forall r, collide h (ra, rb) r = h r.
Proof.
  intros Hrv.
  assert (resolveCollision bodyA bodyB = (bodyA, bodyB)) as Hres.
  { unfold resolveCollision. rewrite Hrv.
    destruct (isStatic bodyA && isStatic bodyB); reflexivity. }
  split; [exact Hres|].
  intros h ra rb Ha Hb r. unfold collide. rewrite Ha, Hb, Hres.
  destruct (isColliding bodyA bodyB); [|reflexivity].
  unfold write.
  destruct (Nat.eqb_spec r rb) as [->|_]; [now rewrite Hb|].
  destruct (Nat.eqb_spec r ra) as [->|_]; [now rewrite Ha|reflexivity].
Qed.

(** Two boxes whose centres lie on a horizontal line, [bodyB] to the right:
    the normal is [(1, 0)]. *)
Lemma normal_horizontal (bodyA bodyB : PhysicsBody) (d : R) :
  Contact.dx bodyA bodyB = Num d -> Contact.dy bodyA bodyB = Num 0 ->
  0 < d ->
  Contact.nx bodyA bodyB = Num 1 /\ Contact.ny bodyA bodyB = Num 0.
Proof.
  intros Hdx Hdy Hd.
  assert (Contact.length bodyA bodyB = Num d) as Hlen.
  { unfold Contact.length. rewrite Hdx, Hdy.
    cbn [Number.mul Number.add Number.lift2 Math.sqrt].
    destruct (Rlt_dec (d * d + 0 * 0) 0) as [Hneg|_]; [nra|].
    f_equal. replace (d * d + 0 * 0) with (d * d) by ring.
    apply sqrt_square. lra. }
  unfold Contact.nx, Contact.ny. rewrite Hdx, Hdy, Hlen.
  rewrite !div_Num by lra. split; f_equal; field; lra.
Qed.

(** Two overlapping boxes that move apart are left alone. *)
Lemma C7_separating_pair_skipped_witness :
  let bodyA := box 0 0 10 10 (-1) 0 1 false in
  let bodyB := box 5 0 10 10 1 0 1 false in
  isColliding bodyA bodyB = true
  /\ resolveCollision bodyA bodyB = (bodyA, bodyB).
Proof.
  intros bodyA bodyB. split.
  - unfold isColliding, bodyA, bodyB, box, Number.gt.
    cbn [position bounds x y width height Number.add Number.lift2].
    rewrite negb_true_iff, !orb_false_iff, !lt_Num_false.
    repeat split; lra.
  - apply (C7_separating_pair_skipped bodyA bodyB).
    assert (Contact.dx bodyA bodyB = Num 5) as Hdx.
    { unfold Contact.dx, bodyA, bodyB, box.
      cbn [position bounds x width]. rewrite !div_Num by lra.
      cbn [Number.add Number.sub Number.lift2]. f_equal. lra. }
    assert (Contact.dy bodyA bodyB = Num 0) as Hdy.
    { unfold Contact.dy, bodyA, bodyB, box.
      cbn [position bounds y height]. rewrite !div_Num by lra.
      cbn [Number.add Number.sub Number.lift2]. f_equal. lra. }
    destruct (normal_horizontal bodyA bodyB 5 Hdx Hdy) as [Hnx Hny]; [lra|].
    unfold Contact.relativeVelocity. rewrite Hnx, Hny.
    unfold Contact.relativeVelocityX, Contact.relativeVelocityY,
      bodyA, bodyB, box.
    cbn [velocity x y Number.add Number.sub Number.mul Number.lift2].
    apply gt_Num. lra.
Defined.

(** ** Static bodies *)

Section StaticBodies.

Lemma applyImpulse_static_fst (bodyA bodyB : PhysicsBody) :
  isStatic bodyA = true -> fst (applyImpulse bodyA bodyB) = bodyA.
Proof. intros Hs. unfold applyImpulse. now rewrite Hs. Qed.

Lemma applyImpulse_static_snd (bodyA bodyB : PhysicsBody) :
  isStatic bodyB = true -> snd (applyImpulse bodyA bodyB) = bodyB.
Proof. intros Hs. unfold applyImpulse. now rewrite Hs. Qed.

Lemma separate_static_fst (bodyA bodyB bodyA' bodyB' : PhysicsBody) :
  isStatic bodyA = true ->
  fst (separate bodyA bodyB bodyA' bodyB') = bodyA'.
Proof.
  intros Hs. unfold separate. rewrite Hs. cbn [negb andb].
  destruct (Contact.overlap bodyA bodyB >? Num 0)%js; [|reflexivity].
  destruct (negb (isStatic bodyB)); reflexivity.
Qed.

Lemma separate_static_snd (bodyA bodyB bodyA' bodyB' : PhysicsBody) :
  isStatic bodyB = true ->
  snd (separate bodyA bodyB bodyA' bodyB') = bodyB'.
Proof.
  intros Hs. unfold separate. rewrite Hs. cbn [negb]. rewrite andb_false_r.
  destruct (Contact.overlap bodyA bodyB >? Num 0)%js; [|reflexivity].
  destruct (negb (isStatic bodyA)); reflexivity.
Qed.

(** The resolver returns a static first body as it was. *)
Lemma resolveCollision_static_fst (bodyA bodyB : PhysicsBody) :
  isStatic bodyA = true -> fst (resolveCollision bodyA bodyB) = bodyA.
Proof.
  intros Hs. unfold resolveCollision.
  destruct (isStatic bodyA && isStatic bodyB); [reflexivity|].
  destruct (Contact.relativeVelocity bodyA bodyB >? Num 0)%js;
    [reflexivity|].
  pose proof (applyImpulse_static_fst bodyA bodyB Hs) as Hi.
  destruct (applyImpulse bodyA bodyB) as [bodyA' bodyB']. cbn [fst] in Hi.
  rewrite separate_static_fst by assumption. exact Hi.
Qed.

(** The resolver returns a static second body as it was. *)
Lemma resolveCollision_static_snd (bodyA bodyB : PhysicsBody) :
  isStatic bodyB = true -> snd (resolveCollision bodyA bodyB) = bodyB.
Proof.
  intros Hs. unfold resolveCollision.
  destruct (isStatic bodyA && isStatic bodyB); [reflexivity|].
  destruct (Contact.relativeVelocity bodyA bodyB >? Num 0)%js;
    [reflexivity|].
  pose proof (applyImpulse_static_snd bodyA bodyB Hs) as Hi.
  destruct (applyImpulse bodyA bodyB) as [bodyA' bodyB']. cbn [snd] in Hi.
  rewrite separate_static_snd by assumption. exact Hi.
Qed.

Variable r : ref.
Variable body : PhysicsBody.
Hypothesis body_static : isStatic body = true.

(** "The heap holds the static body [body] at [r]" is kept by every part
    of a sub-step. *)
Lemma integrateBody_static (g : Vector2) (deltaTime : number) (h : Heap)
  (r' : ref) :
  h r = body -> integrateBody g deltaTime h r' r = body.
Proof.
  intros Hr. unfold integrateBody.
  destruct (isStatic (h r')) eqn:Hs; [assumption|].
  rewrite write_other; [assumption|].
  intros ->. rewrite Hr, body_static in Hs. discriminate.
Qed.

Lemma fold_left_static {A : Type} (f : Heap -> A -> Heap) (l : list A) :
  (forall h a, h r = body -> f h a r = body) ->
  forall h, h r = body -> fold_left f l h r = body.
Proof.
  intros Hf. induction l as [|a l IH]; intros h Hr; [assumption|].
  cbn [fold_left]. apply IH, Hf, Hr.
Qed.

Lemma integrateAll_static (e : PhysicsEngine) (deltaTime : number)
  (h : Heap) :
  h r = body -> integrateAll e deltaTime h r = body.
Proof.
  unfold integrateAll. apply fold_left_static.
  intros h' r'. apply integrateBody_static.
Qed.

Lemma collide_static (h : Heap) (p : ref * ref) :
  h r = body -> collide h p r = body.
Proof.
  intros Hr. destruct p as [ra rb]. unfold collide.
  destruct (isColliding (h ra) (h rb)); [|assumption].
  pose proof (resolveCollision_static_fst (h ra) (h rb)) as Hfst.
  pose proof (resolveCollision_static_snd (h ra) (h rb)) as Hsnd.
  destruct (resolveCollision (h ra) (h rb)) as [bodyA' bodyB'].
  cbn [fst snd] in Hfst, Hsnd. unfold write.
  destruct (Nat.eqb_spec r rb) as [->|_].
  { rewrite Hsnd; rewrite Hr; [reflexivity | exact body_static]. }
  destruct (Nat.eqb_spec r ra) as [->|_].
  { rewrite Hfst; rewrite Hr; [reflexivity | exact body_static]. }
  assumption.
Qed.

Lemma checkCollisions_static (e : PhysicsEngine) (h : Heap) :
  h r = body -> checkCollisions e h r = body.
Proof. unfold checkCollisions. apply fold_left_static, collide_static. Qed.

Lemma step_static (e : PhysicsEngine) (deltaTime : number) (h : Heap) :
  h r = body -> step e deltaTime h r = body.
Proof.
  intros Hr. unfold step. now apply checkCollisions_static, integrateAll_static.
Qed.

Lemma iter_step_static (e : PhysicsEngine) (deltaTime : number) (n : nat)
  (h : Heap) :
  h r = body -> Nat.iter n (step e deltaTime) h r = body.
Proof.
  intros Hr. induction n as [|n IH]; [assumption|].
  cbn [Nat.iter nat_rect]. now apply step_static.
Qed.

Lemma update_static (e : PhysicsEngine) (deltaTime : number) (h : Heap) :
  h r = body -> update e deltaTime h r = body.
Proof. intros Hr. rewrite update_iter. now apply iter_step_static. Qed.

Lemma exec_static (w : World) (c : call) :
  snd w r = body -> snd (exec w c) r = body.
Proof.
  destruct w as [e h]. cbn [snd]. intros Hr.
  destruct c; cbn [exec snd]; try assumption.
  now apply update_static.
Qed.

Lemma run_static (cs : list call) (w : World) :
  snd w r = body -> snd (run cs w) r = body.
Proof.
  revert w. induction cs as [|c cs IH]; intros w Hr; [assumption|].
  cbn [run fold_left]. apply IH, exec_static, Hr.
Qed.

End StaticBodies.



(** ** The registry *)

Section Registry.

Lemma existsb_eqb_In (r : ref) (s : list ref) :
  existsb (Nat.eqb r) s = true <-> In r s.
Proof.
  rewrite existsb_exists. split.
  - intros (r' & Hin & Heq). apply Nat.eqb_eq in Heq. now subst.
  - intros Hin. exists r. split; [assumption | apply Nat.eqb_refl].
Qed.

Lemma set_add_member (r : ref) (s : list ref) : In r s -> set_add r s = s.
Proof.
  intros Hin. unfold set_add.
  now apply existsb_eqb_In in Hin as ->.
Qed.

Lemma set_add_new (r : ref) (s : list ref) :
  ~ In r s -> set_add r s = s ++ [r].
Proof.
  intros Hnin. unfold set_add.
  destruct (existsb (Nat.eqb r) s) eqn:E; [|reflexivity].
  apply existsb_eqb_In in E. contradiction.
Qed.

Lemma set_add_In (r : ref) (s : list ref) : In r (set_add r s).
Proof.
  destruct (in_dec Nat.eq_dec r s) as [Hin|Hnin].
  - now rewrite set_add_member.
  - rewrite set_add_new by assumption. apply in_or_app. right. now left.
Qed.

Lemma set_delete_absent (r : ref) (s : list ref) :
  ~ In r s -> set_delete r s = s.
Proof.
  induction s as [|a s IH]; intros Hnin; [reflexivity|].
  cbn [set_delete filter].
  destruct (Nat.eqb_spec a r) as [->|_].
  - exfalso. apply Hnin. now left.
  - cbn [negb]. fold (set_delete r s). rewrite IH; [reflexivity|].
    intros Hin. apply Hnin. now right.
Qed.

Lemma set_delete_In (r r' : ref) (s : list ref) :
  In r' (set_delete r s) <-> In r' s /\ r' <> r.
Proof.
  unfold set_delete. rewrite filter_In, negb_true_iff, Nat.eqb_neq. tauto.
Qed.

Lemma set_add_NoDup (r : ref) (s : list ref) : NoDup s -> NoDup (set_add r s).
Proof.
  intros Hnd. destruct (in_dec Nat.eq_dec r s) as [Hin|Hnin].
  - now rewrite set_add_member.
  - rewrite set_add_new by assumption.
    apply NoDup_app; [assumption | repeat constructor; easy |].
    intros a Ha [<-|[]]. contradiction.
Qed.

Lemma set_delete_NoDup (r : ref) (s : list ref) :
  NoDup s -> NoDup (set_delete r s).
Proof. apply NoDup_filter. Qed.

Lemma addBody_count (r : ref) (s : list ref) :
  NoDup s -> count_occ Nat.eq_dec (set_add r s) r = 1%nat.
Proof.
  intros Hnd. apply NoDup_count_occ'.
  - now apply set_add_NoDup.
  - apply set_add_In.
Qed.

(** Every sequence of calls keeps the registry free of repetitions. *)
Lemma exec_NoDup (w : World) (c : call) :
  NoDup (bodies (fst w)) -> NoDup (bodies (fst (exec w c))).
Proof.
  destruct w as [e h]. cbn [fst]. intros Hnd.
  destruct c; cbn [exec fst initialize addBody removeBody setGravity
                   setTimeScale bodies]; try assumption.
  - now apply set_add_NoDup.
  - now apply set_delete_NoDup.
Qed.

Lemma run_NoDup (cs : list call) (w : World) :
  NoDup (bodies (fst w)) -> NoDup (bodies (fst (run cs w))).
Proof.
  revert w. induction cs as [|c cs IH]; intros w Hnd; [assumption|].
  cbn [run fold_left]. apply IH, exec_NoDup, Hnd.
Qed.

(** The pairs visited by the nested loops are the pairs of elements at
    indices [i < j]. *)
Lemma pairs_In (l : list ref) (a b : ref) :
  In (a, b) (pairs l) <->
  exists i j, (i < j)%nat /\ nth_error l i = Some a /\ nth_error l j = Some b.
Proof.
  induction l as [|c l IH]; cbn [pairs].
  - split; [intros [] | intros (i & j & _ & Hi & _)].
    destruct i; discriminate.
  - rewrite in_app_iff, in_map_iff, IH. split.
    + intros [(b' & [= <- <-] & Hin) | (i & j & Hlt & Hi & Hj)].
      * apply In_nth_error in Hin as [j Hj].
        exists 0%nat, (Datatypes.S j). repeat split; [lia | assumption].
      * exists (Datatypes.S i), (Datatypes.S j). repeat split; [lia | | ];
          assumption.
    + intros (i & j & Hlt & Hi & Hj).
      destruct j as [|j]; [lia|]. cbn [nth_error] in Hj.
      destruct i as [|i]; cbn [nth_error] in Hi.
      * left. injection Hi as <-. exists b. split; [reflexivity|].
        eapply nth_error_In, Hj.
      * right. exists i, j. repeat split; [lia | | ]; assumption.
Qed.

Lemma pairs_In_both (l : list ref) (a b : ref) :
  In (a, b) (pairs l) -> In a l /\ In b l.
Proof.
  rewrite pairs_In. intros (i & j & _ & Hi & Hj).
  split; eapply nth_error_In; eassumption.
Qed.

Lemma NoDup_nth_error_eq (l : list ref) (i j : nat) (a : ref) :
  NoDup l -> nth_error l i = Some a -> nth_error l j = Some a -> i = j.
Proof.
  intros Hnd Hi Hj.
  apply (proj1 (NoDup_nth_error l) Hnd).
  - apply nth_error_Some. now rewrite Hi.
  - now rewrite Hi, Hj.
Qed.

(** In a registry without repetitions the two references of a visited
    pair differ, and the pair is not visited in the other order. *)
Lemma pairs_distinct (l : list ref) (a b : ref) :
  NoDup l -> In (a, b) (pairs l) -> a <> b /\ ~ In (b, a) (pairs l).
Proof.
  intros Hnd Hin. apply pairs_In in Hin as (i & j & Hlt & Hi & Hj). split.
  - intros <-. pose proof (NoDup_nth_error_eq l i j a Hnd Hi Hj). lia.
  - intros Hin'. apply pairs_In in Hin' as (i' & j' & Hlt' & Hi' & Hj').
    pose proof (NoDup_nth_error_eq l i j' a Hnd Hi Hj').
    pose proof (NoDup_nth_error_eq l j i' b Hnd Hj Hi'). lia.
Qed.

Lemma map_pair_NoDup (a : ref) (l : list ref) :
  NoDup l -> NoDup (map (pair a) l).
Proof.
  induction 1 as [|b l Hnin Hnd IH]; cbn [map]; constructor; [|assumption].
  intros Hin. apply in_map_iff in Hin as (b' & [= ->] & Hin). contradiction.
Qed.

Lemma pairs_NoDup (l : list ref) : NoDup l -> NoDup (pairs l).
Proof.
  induction 1 as [|a l Hnin Hnd IH]; cbn [pairs]; [constructor|].
  apply NoDup_app.
  - now apply map_pair_NoDup.
  - assumption.
  - intros [a' b'] Hmap Hp. apply in_map_iff in Hmap as (b'' & [= <- <-] & _).
    apply pairs_In_both in Hp as [Ha _]. contradiction.
Qed.

(** A registered body that is not static is integrated exactly once by
    the first loop of a sub-step. *)
Lemma integrateAll_absent (g : Vector2) (deltaTime : number) (l : list ref)
  (h : Heap) (r : ref) :
  ~ In r l -> fold_left (integrateBody g deltaTime) l h r = h r.
Proof.
  revert h. induction l as [|a l IH]; intros h Hnin; [reflexivity|].
  cbn [fold_left]. rewrite IH by (intros Hin; apply Hnin; now right).
  unfold integrateBody. destruct (isStatic (h a)); [reflexivity|].
  apply write_other. intros ->. apply Hnin. now left.
Qed.

Lemma integrateAll_once (e : PhysicsEngine) (deltaTime : number) (h : Heap)
  (r : ref) :
  NoDup (bodies e) -> In r (bodies e) -> isStatic (h r) = false ->
  integrateAll e deltaTime h r = integrate (gravity e) deltaTime (h r).
Proof.
  unfold integrateAll. generalize (bodies e) as l. intros l Hnd. revert h.
  induction Hnd as [|a l Hnin Hnd IH]; intros h Hin Hs; [destruct Hin|].
  cbn [fold_left]. destruct (Nat.eq_dec a r) as [->|Hne].
  - rewrite integrateAll_absent by assumption.
    unfold integrateBody. rewrite Hs. apply write_same.
  - destruct Hin as [Heq|Hin]; [contradiction|].
    assert (integrateBody (gravity e) deltaTime h a r = h r) as Hr.
    { unfold integrateBody. destruct (isStatic (h a)); [reflexivity|].
      apply write_other. congruence. }
    rewrite IH; [now rewrite Hr | assumption | now rewrite Hr].
Qed.

End Registry.

(** C10.  [removeBody] of a body that is not registered and [addBody] of a
    body that is registered leave the engine, registry included, and all
    bodies as they were; repeating either call changes nothing more.  The
    registry never holds a body twice (from a fresh engine, after any
    sequence of calls), so the first loop of a sub-step integrates each
    registered moving body once, and the scan visits each unordered pair of
    different bodies once. *)
Theorem C10_registry_idempotent (e : PhysicsEngine) (h : Heap) (b : ref) :
  (~ In b (bodies e) ->
     removeBody b e = e /\ exec (e, h) (RemoveBody b) = (e, h))
  /\ (In b (bodies e) ->
        addBody b e = e /\ exec (e, h) (AddBody b) = (e, h))
  /\ addBody b (addBody b e) = addBody b e
  /\ removeBody b (removeBody b e) = removeBody b e
  /\ (forall cs h0, NoDup (bodies (fst (run cs (new_PhysicsEngine, h0)))))
  /\ (NoDup (bodies e) ->
        NoDup (bodies (addBody b e))
        /\ NoDup (bodies (removeBody b e))
        /\ count_occ Nat.eq_dec (bodies (addBody b e)) b = 1%nat
        /\ (forall deltaTime r,
               In r (bodies e) -> isStatic (h r) = false ->
               integrateAll e deltaTime h r
               = integrate (gravity e) deltaTime (h r))
        /\ NoDup (pairs (bodies e))
        /\ (forall a c,
               In (a, c) (pairs (bodies e)) ->
               a <> c /\ ~ In (c, a) (pairs (bodies e)))).
Proof.
  assert (forall e', ~ In b (bodies e') -> removeBody b e' = e') as Hrem.
  { intros [g ts ms bs] Hnin. unfold removeBody. cbn [bodies] in *.
    now rewrite set_delete_absent. }
  assert (forall e', In b (bodies e') -> addBody b e' = e') as Hadd.
  { intros [g ts ms bs] Hin. unfold addBody. cbn [bodies] in *.
    now rewrite set_add_member. }
  split; [|split; [|split; [|split; [|split]]]].
  - intros Hnin. cbn [exec]. now rewrite Hrem.
  - intros Hin. cbn [exec]. now rewrite Hadd.
  - apply Hadd. apply set_add_In.
  - apply Hrem. cbn [removeBody bodies]. rewrite set_delete_In. tauto.
  - intros cs h0. apply (run_NoDup cs (new_PhysicsEngine, h0)). constructor.
  - intros Hnd. split; [|split; [|split; [|split; [|split]]]].
    + now apply set_add_NoDup.
    + now apply set_delete_NoDup.
    + now apply addBody_count.
    + intros deltaTime r. now apply integrateAll_once.
    + now apply pairs_NoDup.
    + intros a c. now apply pairs_distinct.
Qed.

(** With bodies 0 and 1 registered: removing body 5 and adding body 0
    again change nothing. *)
Lemma C10_registry_idempotent_witness :
  let e := addBody 1%nat (addBody 0%nat new_PhysicsEngine) in
  removeBody 5%nat e = e /\ addBody 0%nat e = e.
Proof.
  intros e.
  destruct (C10_registry_idempotent e (heap_of (box 0 0 1 1 0 0 0 false))
              5%nat) as (Hrem & _).
  destruct (C10_registry_idempotent e (heap_of (box 0 0 1 1 0 0 0 false))
              0%nat) as (_ & Hadd & _).
  split.
  - apply Hrem. cbn. intros [H|[H|[]]]; discriminate.
  - apply Hadd. cbn. now left.
Defined.

(** ** Time scale *)

Lemma for_count_nonpos (u : R) : u <= 0 -> for_count (Num u) = 0%nat.
Proof.
  intros Hu. cbn [for_count].
  assert (Zceil u <= 0)%Z by (apply Zceil_le; exact Hu). lia.
Qed.

(** With [timeScale = 0] the loop bound lets no iteration run, whatever
    [deltaTime] and [maxSteps] are. *)
Lemma for_count_steps_frozen (e : PhysicsEngine) (deltaTime : number) :
  timeScale e = Num 0 -> for_count (steps e deltaTime) = 0%nat.
Proof.
  intros Hts. unfold steps, fixedTimeStep. rewrite Hts.
  destruct deltaTime as [d|]; cbn [Number.mul Number.lift2].
  - rewrite div_Num by apply sixtieth_neq_0.
    cbn [Math.ceil Number.lift1].
    replace (d * 0 / (1 / 60)) with (IZR 0) by (field_simplify; reflexivity).
    rewrite Zceil_IZR.
    destruct (maxSteps e) as [M|]; cbn [Math.min Number.lift2];
      [|reflexivity].
    apply for_count_nonpos, Rmin_r.
  - cbn [Number.div Math.ceil Number.lift1].
    destruct (maxSteps e); reflexivity.
Qed.

(** C8.  With [timeScale = 0], [update] makes no call of [step], for every
    [deltaTime], and returns the heap it was given: after any number of
    [update] calls the engine and every body (position, velocity and
    acceleration) are as before. *)
Theorem C8_zero_timeScale_frozen (e : PhysicsEngine) :
  timeScale e = Num 0 ->
  (forall deltaTime,
      update_calls e deltaTime = [] /\ forall h, update e deltaTime h = h)
  /\ (forall deltaTimes h, run (map Update deltaTimes) (e, h) = (e, h)).
Proof.
  intros Hts.
  assert (forall deltaTime h, update e deltaTime h = h) as Hupd.
  { intros deltaTime h.
    now rewrite update_iter, for_count_steps_frozen. }
  split.
  - intros deltaTime. split; [|apply Hupd].
    now rewrite update_calls_repeat, for_count_steps_frozen.
  - intros deltaTimes h. induction deltaTimes as [|dt dts IH]; [reflexivity|].
    cbn [map run fold_left exec]. rewrite Hupd. exact IH.
Qed.

(** A frozen engine with a falling box: three frames change nothing. *)
Lemma C8_zero_timeScale_frozen_witness :
  let e := setTimeScale (Num 0) (addBody 0%nat new_PhysicsEngine) in
  let h := heap_of (box 0 0 1 1 0 2 0 false) in
  run [Update (Num (1 / 60)); Update (Num 1); Update (Num 0)] (e, h) = (e, h).
Proof.
  intros e h.
  assert (timeScale e = Num 0) as Hts.
  { unfold e. cbn [setTimeScale timeScale Math.max Number.lift2].
    f_equal. apply Rmax_left. lra. }
  apply (proj2 (C8_zero_timeScale_frozen e Hts)
           [Num (1 / 60); Num 1; Num 0] h).
Defined.

Lemma step_ignores_timeScale (g : Vector2) (ts ts' ms : number)
  (bs : list ref) (deltaTime : number) (h : Heap) :
  step (mkEngine g ts ms bs) deltaTime h
  = step (mkEngine g ts' ms bs) deltaTime h.
Proof. reflexivity. Qed.



(** ** The collision normal and the resolver's writes *)

Section Resolver.

Variables bodyA bodyB : PhysicsBody.

(** A zero centre distance means both centre offsets are zero: the quotient
    that yields the normal is then [0 / 0]. *)
Lemma length_zero_centres :
  Contact.length bodyA bodyB = Num 0 ->
  Contact.dx bodyA bodyB = Num 0 /\ Contact.dy bodyA bodyB = Num 0.
Proof.
  unfold Contact.length.
  destruct (Contact.dx bodyA bodyB) as [d1|], (Contact.dy bodyA bodyB) as [d2|];
    cbn [Number.mul Number.add Number.lift2 Math.sqrt]; try discriminate.
  destruct (Rlt_dec (d1 * d1 + d2 * d2) 0) as [|Hge]; [discriminate|].
  intros [= Hsq]. apply sqrt_eq_0 in Hsq; [|lra].
  split; f_equal; nra.
Qed.

(** When both components of the normal are real numbers, it is a unit
    vector. *)
Lemma unit_normal (n1 n2 : R) :
  Contact.nx bodyA bodyB = Num n1 -> Contact.ny bodyA bodyB = Num n2 ->
  n1 * n1 + n2 * n2 = 1.
Proof.
  unfold Contact.nx, Contact.ny. intros Hx Hy.
  apply div_Num_inv in Hx as (d1 & l & Hdx & Hl & Hl0 & ->).
  apply div_Num_inv in Hy as (d2 & l' & Hdy & Hl' & _ & ->).
  rewrite Hl in Hl'. injection Hl' as <-.
  unfold Contact.length in Hl. rewrite Hdx, Hdy in Hl.
  cbn [Number.mul Number.add Number.lift2 Math.sqrt] in Hl.
  destruct (Rlt_dec (d1 * d1 + d2 * d2) 0) as [|Hge]; [discriminate|].
  injection Hl as Hl.
  assert (l * l = d1 * d1 + d2 * d2) as Hsq
    by (rewrite <- Hl; apply sqrt_sqrt; lra).
  replace (d1 / l * (d1 / l) + d2 / l * (d2 / l))
    with ((d1 * d1 + d2 * d2) / (l * l)) by (field; exact Hl0).
  rewrite <- Hsq. field. exact Hl0.
Qed.

(** A relative normal velocity that is a real number has real parts. *)
Lemma relativeVelocity_real (r : R) :
  Contact.relativeVelocity bodyA bodyB = Num r ->
  exists vax vay vbx vby n1 n2,
    x (velocity bodyA) = Num vax /\ y (velocity bodyA) = Num vay
    /\ x (velocity bodyB) = Num vbx /\ y (velocity bodyB) = Num vby
    /\ Contact.nx bodyA bodyB = Num n1 /\ Contact.ny bodyA bodyB = Num n2
    /\ n1 * n1 + n2 * n2 = 1
    /\ r = (vbx - vax) * n1 + (vby - vay) * n2.
Proof.
  unfold Contact.relativeVelocity. intros H.
  apply lift2_Num_inv in H as (p & q & Hp & Hq & ->).
  apply lift2_Num_inv in Hp as (rvx & n1 & Hrvx & Hn1 & ->).
  apply lift2_Num_inv in Hq as (rvy & n2 & Hrvy & Hn2 & ->).
  apply lift2_Num_inv in Hrvx as (vbx & vax & Hvbx & Hvax & ->).
  apply lift2_Num_inv in Hrvy as (vby & vay & Hvby & Hvay & ->).
  exists vax, vay, vbx, vby, n1, n2.
  repeat split; try assumption. now apply unit_normal.
Qed.

(** A centre offset [dx] that is a real number has real parts. *)
Lemma dx_real (d : R) :
  Contact.dx bodyA bodyB = Num d ->
  exists xa xb, x (position bodyA) = Num xa /\ x (position bodyB) = Num xb.
Proof.
  unfold Contact.dx. intros H.
  apply lift2_Num_inv in H as (p & q & Hp & Hq & _).
  apply lift2_Num_inv in Hp as (xb & ? & Hxb & _ & _).
  apply lift2_Num_inv in Hq as (xa & ? & Hxa & _ & _).
  now exists xa, xb.
Qed.

Lemma dy_real (d : R) :
  Contact.dy bodyA bodyB = Num d ->
  exists ya yb, y (position bodyA) = Num ya /\ y (position bodyB) = Num yb.
Proof.
  unfold Contact.dy. intros H.
  apply lift2_Num_inv in H as (p & q & Hp & Hq & _).
  apply lift2_Num_inv in Hp as (yb & ? & Hyb & _ & _).
  apply lift2_Num_inv in Hq as (ya & ? & Hya & _ & _).
  now exists ya, yb.
Qed.

Lemma nx_real (n1 : R) :
  Contact.nx bodyA bodyB = Num n1 -> exists d, Contact.dx bodyA bodyB = Num d.
Proof.
  unfold Contact.nx. intros H.
  apply div_Num_inv in H as (d & _ & Hd & _). now exists d.
Qed.

Lemma ny_real (n2 : R) :
  Contact.ny bodyA bodyB = Num n2 -> exists d, Contact.dy bodyA bodyB = Num d.
Proof.
  unfold Contact.ny. intros H.
  apply div_Num_inv in H as (d & _ & Hd & _). now exists d.
Qed.

(** The impulse writes leave the positions, the separation writes leave
    the velocities. *)
Lemma applyImpulse_position :
  position (fst (applyImpulse bodyA bodyB)) = position bodyA
  /\ position (snd (applyImpulse bodyA bodyB)) = position bodyB.
Proof.
  unfold applyImpulse. cbn [fst snd].
  destruct (isStatic bodyA), (isStatic bodyB); split; reflexivity.
Qed.

Lemma separate_velocity (bodyA' bodyB' : PhysicsBody) :
  velocity (fst (separate bodyA bodyB bodyA' bodyB')) = velocity bodyA'
  /\ velocity (snd (separate bodyA bodyB bodyA' bodyB')) = velocity bodyB'.
Proof.
  unfold separate.
  destruct (Contact.overlap bodyA bodyB >? Num 0)%js;
    destruct (isStatic bodyA), (isStatic bodyB); split; reflexivity.
Qed.

(** Past the two early returns the resolver is the impulse writes followed
    by the separation writes. *)
Lemma resolveCollision_proceeds :
  isStatic bodyA && isStatic bodyB = false ->
  (Contact.relativeVelocity bodyA bodyB >? Num 0)%js = false ->
  resolveCollision bodyA bodyB
  = separate bodyA bodyB (fst (applyImpulse bodyA bodyB))
      (snd (applyImpulse bodyA bodyB)).
Proof.
  intros Hs Hrv. unfold resolveCollision. rewrite Hs, Hrv.
  now destruct (applyImpulse bodyA bodyB).
Qed.

Lemma le_0_not_gt (a : number) :
  (a <=? Num 0)%js = true -> (a >? Num 0)%js = false.
Proof.
  intros H. apply le_true_Num in H as (u & v & -> & [= <-] & Hu).
  now apply gt_Num_false.
Qed.

Lemma lt_0_le (a : number) :
  (a <? Num 0)%js = true -> (a <=? Num 0)%js = true.
Proof.
  intros H. apply lt_true_Num in H as (u & v & -> & [= <-] & Hu).
  apply le_Num. lra.
Qed.

End Resolver.


(** Two boxes of the same size on the same horizontal line, the second to
    the right of the first. *)
Lemma box_contact (xa xb ya w ht vax vay vbx vby ra rb : R) (sa sb : bool) :
  xa < xb ->
  let bodyA := box xa ya w ht vax vay ra sa in
  let bodyB := box xb ya w ht vbx vby rb sb in
  Contact.dx bodyA bodyB = Num (xb - xa)
  /\ Contact.nx bodyA bodyB = Num 1 /\ Contact.ny bodyA bodyB = Num 0
  /\ Contact.relativeVelocity bodyA bodyB = Num (vbx - vax).
Proof.
  intros Hlt bodyA bodyB.
  assert (Contact.dx bodyA bodyB = Num (xb - xa)) as Hdx.
  { unfold Contact.dx, bodyA, bodyB, box.
    cbn [position bounds x width]. rewrite !div_Num by lra.
    cbn [Number.add Number.sub Number.lift2]. f_equal. lra. }
  assert (Contact.dy bodyA bodyB = Num 0) as Hdy.
  { unfold Contact.dy, bodyA, bodyB, box.
    cbn [position bounds y height]. rewrite !div_Num by lra.
    cbn [Number.add Number.sub Number.lift2]. f_equal. lra. }
  destruct (normal_horizontal bodyA bodyB (xb - xa) Hdx Hdy) as [Hnx Hny];
    [lra|].
  repeat split; try assumption.
  unfold Contact.relativeVelocity. rewrite Hnx, Hny.
  unfold Contact.relativeVelocityX, Contact.relativeVelocityY,
    bodyA, bodyB, box.
  cbn [velocity x y Number.add Number.sub Number.mul Number.lift2].
  f_equal. lra.
Qed.




(** * Further properties of the engine *)

(** ** Bounded work of [update] *)

Lemma Zceil_mono (r1 r2 : R) : r1 <= r2 -> (Zceil r1 <= Zceil r2)%Z.
Proof.
  intros Hle. apply Zceil_le.
  destruct (Zceil_bounds r2) as [_ H]. lra.
Qed.

Lemma for_count_mono (u v : R) :
  u <= v -> (for_count (Num u) <= for_count (Num v))%nat.
Proof.
  intros Hle. cbn [for_count].
  pose proof (Zceil_mono u v Hle). lia.
Qed.

(** X1.  Whatever the frame time and the time scale, one [update] runs at
    most as many sub-steps as a loop bounded by [maxSteps] alone would:
    [max(0, ceil(maxSteps))], and none when [maxSteps] is [NaN]. *)
Theorem update_work_bounded (e : PhysicsEngine) (deltaTime : number) :
  (List.length (update_calls e deltaTime) <= for_count (maxSteps e))%nat
  /\ exists n, (n <= for_count (maxSteps e))%nat
               /\ forall h, update e deltaTime h
                            = Nat.iter n (step e fixedTimeStep) h.
Proof.
  assert (for_count (steps e deltaTime) <= for_count (maxSteps e))%nat as Hle.
  { unfold steps.
    destruct (maxSteps e) as [M|]; [|cbn; lia].
    destruct (Math.ceil (deltaTime * timeScale e / fixedTimeStep)%js)
      as [c|]; [|cbn; lia].
    cbn [Math.min Number.lift2]. apply for_count_mono, Rmin_l. }
  split.
  - now rewrite update_calls_repeat, repeat_length.
  - exists (for_count (steps e deltaTime)). split; [exact Hle|].
    intros h. apply update_iter.
Qed.

(** X2.  With a time scale that is not negative, a longer frame never
    runs fewer sub-steps than a shorter one; and with an integer
    [maxSteps = m >= 0] and a positive time scale all frames longer than
    [m * fixedTimeStep / timeScale] have the same effect: the simulation
    falls behind instead of catching up. *)
Theorem update_monotone_saturating (e : PhysicsEngine) (ts d1 d2 : R) :
  timeScale e = Num ts -> 0 <= ts -> d1 <= d2 ->
  (List.length (update_calls e (Num d1))
   <= List.length (update_calls e (Num d2)))%nat
  /\ forall m : Z,
       maxSteps e = Num (IZR m) -> (0 <= m)%Z -> 0 < ts ->
       IZR m * (1 / 60) / ts < d1 ->
       forall h, update e (Num d1) h = update e (Num d2) h
                 /\ update e (Num d1) h
                    = Nat.iter (Z.to_nat m) (step e fixedTimeStep) h.
Proof.
  intros Hts Hts0 Hd. split.
  - rewrite !update_calls_repeat, !repeat_length.
    destruct (maxSteps e) as [M|] eqn:HM.
    + rewrite (steps_Num e M ts d1 HM Hts), (steps_Num e M ts d2 HM Hts).
      apply for_count_mono, Rle_min_compat_l, IZR_le, Zceil_mono.
      apply Rmult_le_compat_r; [lra|].
      now apply Rmult_le_compat_r.
    + unfold steps. rewrite HM. cbn [Math.min Number.lift2 for_count]. lia.
  - intros m HM Hm Hpos Hlag h.
    assert (forall d, IZR m * (1 / 60) / ts < d ->
                      for_count (steps e (Num d)) = Z.to_nat m) as Hcap.
    { intros d Hd'.
      assert (0 <= d) as Hd0.
      { apply Rle_trans with (IZR m * (1 / 60) / ts); [|lra].
        apply Rmult_le_pos; [|apply Rlt_le, Rinv_0_lt_compat; exact Hpos].
        apply Rmult_le_pos; [apply IZR_le; exact Hm | lra]. }
      destruct (for_count_steps e m ts d HM Hts Hm Hts0 Hd0) as [_ ->].
      f_equal. apply Z.min_l, Z.lt_le_incl, lt_Zceil.
      now apply scaled_gt_maxSteps. }
    rewrite !update_iter, (Hcap d1 Hlag), (Hcap d2) by lra.
    split; reflexivity.
Qed.

(** A lag spike of one second and one of ten seconds, with the default
    configuration: the same three sub-steps. *)
Lemma update_monotone_saturating_witness :
  let h := heap_of (box 0 0 1 1 0 0 0 false) in
  update new_PhysicsEngine (Num 1) h = update new_PhysicsEngine (Num 10) h.
Proof.
  intros h.
  destruct (update_monotone_saturating new_PhysicsEngine 1 1 10 eq_refl)
    as [_ Hsat]; [lra | lra |].
  apply (Hsat 3%Z eq_refl); [lia | lra | lra].
Defined.

(** ** What a sub-step reads and writes *)

Lemma fold_left_invariant {A St : Type} (P : St -> Prop) (f : St -> A -> St)
  (l : list A) :
  (forall s a, In a l -> P s -> P (f s a)) ->
  forall s, P s -> P (fold_left f l s).
Proof.
  induction l as [|a l IH]; intros Hf s Hs; [assumption|].
  cbn [fold_left]. apply IH.
  - intros s' a' Hin. apply Hf. now right.
  - apply Hf; [now left | assumption].
Qed.

Lemma iter_invariant {St : Type} (P : St -> Prop) (f : St -> St) (n : nat) :
  (forall s, P s -> P (f s)) -> forall s, P s -> P (Nat.iter n f s).
Proof.
  intros Hf s Hs. induction n as [|n IH]; [assumption|].
  cbn [Nat.iter nat_rect]. now apply Hf.
Qed.

Lemma collide_other (h : Heap) (ra rb r : ref) :
  r <> ra -> r <> rb -> collide h (ra, rb) r = h r.
Proof.
  intros Ha Hb. unfold collide.
  destruct (isColliding (h ra) (h rb)); [|reflexivity].
  destruct (resolveCollision (h ra) (h rb)) as [bodyA' bodyB'].
  now rewrite !write_other.
Qed.

Section Unregistered.

Variables (e : PhysicsEngine) (r : ref).
Hypothesis Hnin : ~ In r (bodies e).

Lemma checkCollisions_absent (h : Heap) : checkCollisions e h r = h r.
Proof.
  unfold checkCollisions.
  apply (fold_left_invariant (fun h' => h' r = h r)); [|reflexivity].
  intros h' [ra rb] Hin Hr. apply pairs_In_both in Hin as [Ha Hb].
  rewrite collide_other; [assumption | |]; intros ->; contradiction.
Qed.

Lemma step_absent (deltaTime : number) (h : Heap) :
  step e deltaTime h r = h r.
Proof.
  unfold step, integrateAll.
  now rewrite checkCollisions_absent, integrateAll_absent.
Qed.

Lemma update_absent (deltaTime : number) (h : Heap) :
  update e deltaTime h r = h r.
Proof.
  rewrite update_iter.
  apply (iter_invariant (fun h' => h' r = h r)); [|reflexivity].
  intros h' Hr. now rewrite step_absent.
Qed.

End Unregistered.



Section Agreement.

Variable e : PhysicsEngine.

Lemma integrateBody_agree (deltaTime : number) (h1 h2 : Heap) (a : ref) :
  In a (bodies e) -> agree (bodies e) h1 h2 ->
  agree (bodies e) (integrateBody (gravity e) deltaTime h1 a)
        (integrateBody (gravity e) deltaTime h2 a).
Proof.
  intros Ha Hag r Hr. unfold integrateBody.
  rewrite (Hag a Ha). destruct (isStatic (h2 a)); [now apply Hag|].
  unfold write. destruct (Nat.eqb r a); [reflexivity | now apply Hag].
Qed.

Lemma collide_agree (h1 h2 : Heap) (p : ref * ref) :
  In p (pairs (bodies e)) -> agree (bodies e) h1 h2 ->
  agree (bodies e) (collide h1 p) (collide h2 p).
Proof.
  destruct p as [ra rb]. intros Hp Hag r Hr.
  apply pairs_In_both in Hp as [Ha Hb]. unfold collide.
  rewrite (Hag ra Ha), (Hag rb Hb).
  destruct (isColliding (h2 ra) (h2 rb)); [|now apply Hag].
  destruct (resolveCollision (h2 ra) (h2 rb)) as [bodyA' bodyB'].
  unfold write.
  destruct (Nat.eqb r rb); [reflexivity|].
  destruct (Nat.eqb r ra); [reflexivity | now apply Hag].
Qed.

Lemma fold_left_agree {A : Type} (f : Heap -> A -> Heap) (l : list A) :
  (forall h1 h2 a, In a l -> agree (bodies e) h1 h2 ->
                   agree (bodies e) (f h1 a) (f h2 a)) ->
  forall h1 h2, agree (bodies e) h1 h2 ->
                agree (bodies e) (fold_left f l h1) (fold_left f l h2).
Proof.
  induction l as [|a l IH]; intros Hf h1 h2 Hag; [assumption|].
  cbn [fold_left]. apply IH.
  - intros h1' h2' a' Hin. apply Hf. now right.
  - apply Hf; [now left | assumption].
Qed.

Lemma step_agree (deltaTime : number) (h1 h2 : Heap) :
  agree (bodies e) h1 h2 ->
  agree (bodies e) (step e deltaTime h1) (step e deltaTime h2).
Proof.
  intros Hag. unfold step, checkCollisions, integrateAll.
  apply fold_left_agree; [intros; now apply collide_agree|].
  apply fold_left_agree; [intros; now apply integrateBody_agree|].
  exact Hag.
Qed.

Lemma update_agree (deltaTime : number) (h1 h2 : Heap) :
  agree (bodies e) h1 h2 ->
  agree (bodies e) (update e deltaTime h1) (update e deltaTime h2).
Proof.
  intros Hag. rewrite !update_iter.
  induction (for_count (steps e deltaTime)) as [|n IH]; [assumption|].
  cbn [Nat.iter nat_rect]. now apply step_agree.
Qed.

End Agreement.

(** X4.  The registered bodies after an [update] are a function of the
    registered bodies before it: two heaps that hold the same bodies at the
    registered references still do so afterwards, whatever else they hold.
    An unregistered body cannot cause a collision. *)
Theorem update_reads_registered_only (e : PhysicsEngine)
  (deltaTime : number) (h1 h2 : Heap) :
  agree (bodies e) h1 h2 ->
  agree (bodies e) (update e deltaTime h1) (update e deltaTime h2).
Proof. apply update_agree. Qed.

(** A registered falling box ends in the same state whether or not an
    unregistered box lies in its way. *)
Lemma update_reads_registered_only_witness :
  let e := addBody 0%nat new_PhysicsEngine in
  let ball := box 0 0 10 10 0 3 0 false in
  update e (Num 1) (heap_of2 ball (box 0 5 10 10 0 0 0 true)) 0%nat
  = update e (Num 1) (heap_of2 ball (box 50 50 1 1 0 0 0 false)) 0%nat.
Proof.
  intros e ball.
  apply (update_reads_registered_only e (Num 1)
           (heap_of2 ball (box 0 5 10 10 0 0 0 true))
           (heap_of2 ball (box 50 50 1 1 0 0 0 false))).
  - intros r [<-|[]]. reflexivity.
  - cbn. now left.
Defined.

(** ** Fields the engine never writes *)

Section Parameters.

Lemma same_parameters_refl (b : PhysicsBody) : same_parameters b b.
Proof. repeat split. Qed.

Lemma same_parameters_trans (b1 b2 b3 : PhysicsBody) :
  same_parameters b1 b2 -> same_parameters b2 b3 -> same_parameters b1 b3.
Proof.
  unfold same_parameters.
  intros (H1 & H2 & H3 & H4 & H5) (K1 & K2 & K3 & K4 & K5).
  repeat split; congruence.
Qed.

Lemma integrate_parameters (g : Vector2) (deltaTime : number)
  (b : PhysicsBody) :
  same_parameters b (integrate g deltaTime b).
Proof. repeat split. Qed.

Lemma resolveCollision_parameters (bodyA bodyB : PhysicsBody) :
  same_parameters bodyA (fst (resolveCollision bodyA bodyB))
  /\ same_parameters bodyB (snd (resolveCollision bodyA bodyB)).
Proof.
  unfold resolveCollision, separate, applyImpulse.
  destruct (isStatic bodyA) eqn:HA, (isStatic bodyB) eqn:HB;
    cbn [andb negb];
    destruct (Contact.relativeVelocity bodyA bodyB >? Num 0)%js;
    cbn [fst snd]; try (split; apply same_parameters_refl);
    destruct (Contact.overlap bodyA bodyB >? Num 0)%js;
    cbn [fst snd]; split; repeat split; assumption.
Qed.

Variable h0 : Heap.

(** The heap [h] holds, at every reference, a body with the parameters
    that [h0] holds there. *)
Let kept (h : Heap) : Prop := forall r, same_parameters (h0 r) (h r).

Lemma write_kept (h : Heap) (a : ref) (b : PhysicsBody) :
  kept h -> same_parameters (h a) b -> kept (write a b h).
Proof.
  intros Hk Hb r. unfold write.
  destruct (Nat.eqb_spec r a) as [->|_]; [|apply Hk].
  eapply same_parameters_trans; [apply Hk | exact Hb].
Qed.

Lemma integrateBody_kept (g : Vector2) (deltaTime : number) (h : Heap)
  (a : ref) :
  kept h -> kept (integrateBody g deltaTime h a).
Proof.
  intros Hk. unfold integrateBody.
  destruct (isStatic (h a)); [assumption|].
  apply write_kept; [assumption | apply integrate_parameters].
Qed.

Lemma collide_kept (h : Heap) (p : ref * ref) : kept h -> kept (collide h p).
Proof.
  intros Hk. destruct p as [ra rb]. unfold collide.
  destruct (isColliding (h ra) (h rb)); [|assumption].
  destruct (resolveCollision_parameters (h ra) (h rb)) as [HA HB].
  destruct (resolveCollision (h ra) (h rb)) as [bodyA' bodyB'].
  cbn [fst snd] in HA, HB.
  intros r. unfold write.
  destruct (Nat.eqb_spec r rb) as [->|_].
  { eapply same_parameters_trans; [apply Hk | exact HB]. }
  destruct (Nat.eqb_spec r ra) as [->|_]; [|apply Hk].
  eapply same_parameters_trans; [apply Hk | exact HA].
Qed.

Lemma step_kept (e : PhysicsEngine) (deltaTime : number) (h : Heap) :
  kept h -> kept (step e deltaTime h).
Proof.
  intros Hk. unfold step, checkCollisions, integrateAll.
  apply fold_left_invariant; [intros; now apply collide_kept|].
  apply fold_left_invariant; [intros; now apply integrateBody_kept|].
  exact Hk.
Qed.

Lemma exec_kept (w : World) (c : call) : kept (snd w) -> kept (snd (exec w c)).
Proof.
  destruct w as [e h]. cbn [snd]. intros Hk.
  destruct c; cbn [exec snd]; try assumption.
  rewrite update_iter. apply iter_invariant; [|assumption].
  intros h'. apply step_kept.
Qed.

Lemma run_kept (cs : list call) (w : World) :
  kept (snd w) -> kept (snd (run cs w)).
Proof.
  unfold run. apply (fold_left_invariant (fun w' => kept (snd w'))).
  intros w' c _. apply exec_kept.
Qed.

End Parameters.

(** X5.  No sequence of engine calls changes a body's [isStatic], [mass],
    [restitution], [friction] or [bounds]: the engine writes positions,
    velocities and acceleration accumulators only. *)
Theorem engine_never_writes_parameters (cs : list call) (e : PhysicsEngine)
  (h : Heap) (r : ref) :
  let b' := snd (run cs (e, h)) r in
  isStatic b' = isStatic (h r) /\ mass b' = mass (h r)
  /\ restitution b' = restitution (h r) /\ friction b' = friction (h r)
  /\ bounds b' = bounds (h r).
Proof.
  apply (run_kept h cs (e, h)). intros r'. apply same_parameters_refl.
Qed.

(** ** The acceleration accumulator *)

Lemma resolveCollision_acceleration (bodyA bodyB : PhysicsBody) :
  acceleration (fst (resolveCollision bodyA bodyB)) = acceleration bodyA
  /\ acceleration (snd (resolveCollision bodyA bodyB)) = acceleration bodyB.
Proof.
  unfold resolveCollision, separate, applyImpulse.
  destruct (isStatic bodyA), (isStatic bodyB); cbn [andb negb];
    destruct (Contact.relativeVelocity bodyA bodyB >? Num 0)%js;
    cbn [fst snd]; try (split; reflexivity);
    destruct (Contact.overlap bodyA bodyB >? Num 0)%js;
    cbn [fst snd]; split; reflexivity.
Qed.

Lemma collide_acceleration (h : Heap) (p : ref * ref) (r : ref) :
  acceleration (collide h p r) = acceleration (h r).
Proof.
  destruct p as [ra rb]. unfold collide.
  destruct (isColliding (h ra) (h rb)); [|reflexivity].
  destruct (resolveCollision_acceleration (h ra) (h rb)) as [HA HB].
  destruct (resolveCollision (h ra) (h rb)) as [bodyA' bodyB'].
  cbn [fst snd] in HA, HB. unfold write.
  destruct (Nat.eqb_spec r rb) as [->|_]; [assumption|].
  destruct (Nat.eqb_spec r ra) as [->|_]; [assumption | reflexivity].
Qed.

Lemma checkCollisions_acceleration (e : PhysicsEngine) (h : Heap) (r : ref) :
  acceleration (checkCollisions e h r) = acceleration (h r).
Proof.
  unfold checkCollisions.
  apply (fold_left_invariant
           (fun h' => acceleration (h' r) = acceleration (h r)));
    [|reflexivity].
  intros h' p _ Hr. now rewrite collide_acceleration.
Qed.



(** ** Detection and scan *)

Lemma isColliding_symmetric_aux (bodyA bodyB : PhysicsBody) :
  isColliding bodyA bodyB = isColliding bodyB bodyA.
Proof.
  unfold isColliding, Number.gt. f_equal.
  destruct (x (position bodyA) + width (bounds bodyA) <? x (position bodyB))%js,
    (x (position bodyB) + width (bounds bodyB) <? x (position bodyA))%js,
    (y (position bodyA) + height (bounds bodyA) <? y (position bodyB))%js,
    (y (position bodyB) + height (bounds bodyB) <? y (position bodyA))%js;
    reflexivity.
Qed.

(** X7.  The AABB test does not depend on which body is passed first,
    [NaN] coordinates included; two boxes at the same place with sizes that
    are not negative collide. *)
Theorem isColliding_symmetric (bodyA bodyB : PhysicsBody) :
  isColliding bodyA bodyB = isColliding bodyB bodyA
  /\ forall w1 h1 w2 h2 : R,
       position bodyA = position bodyB ->
       bounds bodyA = mkBounds (Num w1) (Num h1) ->
       bounds bodyB = mkBounds (Num w2) (Num h2) ->
       0 <= w1 -> 0 <= h1 -> 0 <= w2 -> 0 <= h2 ->
       isColliding bodyA bodyB = true.
Proof.
  split; [apply isColliding_symmetric_aux|].
  intros w1 h1 w2 h2 Hp HsA HsB Hw1 Hh1 Hw2 Hh2.
  unfold isColliding, Number.gt. rewrite Hp, HsA, HsB. cbn [width height].
  destruct (position bodyB) as [[px|] [py|]]; cbn [x y];
    cbn [Number.add Number.lift2 Number.lt]; try reflexivity;
    repeat match goal with
      | |- context [Rlt_dec ?u ?v] => destruct (Rlt_dec u v); try lra
      end; reflexivity.
Qed.

(** Two boxes of different sizes with the same top-left corner. *)
Lemma isColliding_symmetric_witness :
  isColliding (box 3 4 10 10 0 0 0 false) (box 3 4 2 5 0 0 0 true) = true.
Proof.
  apply (proj2 (isColliding_symmetric (box 3 4 10 10 0 0 0 false)
                  (box 3 4 2 5 0 0 0 true)) 10 10 2 5);
    first [reflexivity | lra].
Defined.

Lemma pairs_length (l : list ref) :
  (2 * List.length (pairs l) = List.length l * (List.length l - 1))%nat.
Proof.
  induction l as [|a l IH]; [reflexivity|].
  cbn [pairs List.length]. rewrite length_app, length_map. nia.
Qed.

(** X8.  With [n] registered bodies the scan of one sub-step visits
    [n * (n - 1) / 2] pairs, none for fewer than two bodies, and only
    pairs of registered bodies. *)
Theorem scan_visits_all_pairs_once (e : PhysicsEngine) :
  let n := List.length (bodies e) in
  (2 * List.length (pairs (bodies e)) = n * (n - 1))%nat
  /\ ((n < 2)%nat -> forall h, checkCollisions e h = h)
  /\ (forall a b, In (a, b) (pairs (bodies e)) ->
                  In a (bodies e) /\ In b (bodies e))
  /\ (NoDup (bodies e) ->
      forall a b, In a (bodies e) -> In b (bodies e) -> a <> b ->
                  In (a, b) (pairs (bodies e))
                  \/ In (b, a) (pairs (bodies e))).
Proof.
  intros n. split; [apply pairs_length|]. split; [|split].
  - intros Hn h. unfold checkCollisions. subst n.
    destruct (bodies e) as [|a [|b l]]; cbn in *; [reflexivity.. | lia].
  - intros a b. apply pairs_In_both.
  - intros _ a b Ha Hb Hne.
    apply In_nth_error in Ha as [i Hi]. apply In_nth_error in Hb as [j Hj].
    destruct (Nat.lt_total i j) as [Hlt|[Heq|Hgt]].
    + left. apply pairs_In. now exists i, j.
    + subst j. congruence.
    + right. apply pairs_In. now exists j, i.
Qed.

(** An engine with one body scans nothing. *)
Lemma scan_visits_all_pairs_once_witness :
  let h := heap_of (box 0 0 1 1 0 0 0 false) in
  checkCollisions (addBody 0%nat new_PhysicsEngine) h = h.
Proof.
  intros h.
  destruct (scan_visits_all_pairs_once (addBody 0%nat new_PhysicsEngine))
    as (_ & Hfew & _).
  apply Hfew. cbn. lia.
Defined.

(** ** Integration does not depend on the registry order *)

Lemma integrateAll_pointwise (g : Vector2) (deltaTime : number)
  (l : list ref) (h : Heap) (r : ref) :
  NoDup l ->
  fold_left (integrateBody g deltaTime) l h r
  = if in_dec Nat.eq_dec r l
    then if isStatic (h r) then h r else integrate g deltaTime (h r)
    else h r.
Proof.
  intros Hnd. destruct (in_dec Nat.eq_dec r l) as [Hin|Hnin].
  - destruct (isStatic (h r)) eqn:Hs.
    + apply (integrateAll_static r (h r) Hs (mkEngine g NaN NaN l)).
      reflexivity.
    + now apply (integrateAll_once (mkEngine g NaN NaN l)).
  - now apply integrateAll_absent.
Qed.



(** ** Registry membership *)

(** X10.  After [addBody(b)] the members are the former members and [b];
    after [removeBody(b)] they are the former members other than [b]; a new
    body is iterated last; and removing a body that was just added to a
    registry without it restores the engine. *)
Theorem registry_membership (e : PhysicsEngine) (b : ref) :
  (forall r, In r (getBodies (addBody b e)) <-> r = b \/ In r (getBodies e))
  /\ (forall r, In r (getBodies (removeBody b e))
                <-> In r (getBodies e) /\ r <> b)
  /\ (~ In b (getBodies e) ->
      getBodies (addBody b e) = getBodies e ++ [b]
      /\ removeBody b (addBody b e) = e).
Proof.
  unfold getBodies. split; [|split].
  - intros r. cbn [addBody bodies].
    destruct (in_dec Nat.eq_dec b (bodies e)) as [Hin|Hnin].
    + rewrite set_add_member by assumption. split; [tauto|].
      intros [->|H]; assumption.
    + rewrite set_add_new, in_app_iff by assumption. cbn [In].
      split; intros H; intuition congruence.
  - intros r. cbn [removeBody bodies]. apply set_delete_In.
  - intros Hnin. split.
    + cbn [addBody bodies]. now apply set_add_new.
    + destruct e as [g ts ms bs]. cbn [bodies] in Hnin.
      unfold removeBody, addBody.
      cbn [bodies gravity timeScale maxSteps].
      rewrite set_add_new by assumption. f_equal.
      unfold set_delete. rewrite filter_app. cbn [filter].
      rewrite Nat.eqb_refl. cbn [negb]. rewrite app_nil_r.
      now apply set_delete_absent.
Qed.

(** Adding body 7 to an engine holding body 0 and removing it again. *)
Lemma registry_membership_witness :
  let e := addBody 0%nat new_PhysicsEngine in
  removeBody 7%nat (addBody 7%nat e) = e.
Proof.
  intros e.
  destruct (registry_membership e 7%nat) as (_ & _ & Hround).
  apply Hround. cbn. intros [H|[]]. discriminate.
Defined.

(** ** A lone body under gravity *)

Section LoneBody.

Variables (e : PhysicsEngine) (r : ref).
Hypothesis Hbodies : bodies e = [r].

Lemma step_lone (deltaTime : number) (h : Heap) :
  isStatic (h r) = false ->
  step e deltaTime h r = integrate (gravity e) deltaTime (h r).
Proof.
  intros Hs. unfold step, checkCollisions, integrateAll. rewrite Hbodies.
  cbn [pairs fold_left]. unfold integrateBody. rewrite Hs. apply write_same.
Qed.

Variables gx gy t : R.
Hypothesis Hgravity : gravity e = mkVector2 (Num gx) (Num gy).

Lemma iter_step_lone (n : nat) (h : Heap) (px py vx vy : R) :
  isStatic (h r) = false ->
  position (h r) = mkVector2 (Num px) (Num py) ->
  velocity (h r) = mkVector2 (Num vx) (Num vy) ->
  acceleration (h r) = mkVector2 (Num 0) (Num 0) ->
  let b' := Nat.iter n (step e (Num t)) h r in
  isStatic b' = false
  /\ velocity b'
     = mkVector2 (Num (vx + INR n * gx * t)) (Num (vy + INR n * gy * t))
  /\ position b'
     = mkVector2
         (Num (px + INR n * vx * t + INR n * (INR n + 1) / 2 * gx * t * t))
         (Num (py + INR n * vy * t + INR n * (INR n + 1) / 2 * gy * t * t))
  /\ acceleration b' = mkVector2 (Num 0) (Num 0).
Proof.
  intros Hs Hp Hv Ha. induction n as [|n (IHs & IHv & IHp & IHa)].
  - cbn [Nat.iter nat_rect INR]. rewrite Hs, Hp, Hv, Ha.
    repeat split; f_equal; f_equal; field.
  - cbv zeta in *. rewrite Nat.iter_succ.
    rewrite step_lone by exact IHs.
    unfold integrate, resetAcceleration, updatePosition, updateVelocity,
      applyGravity.
    cbn [set_acceleration set_velocity set_position
         position velocity acceleration isStatic x y].
    rewrite IHs, IHv, IHp, IHa, Hgravity.
    cbn [x y Number.add Number.mul Number.lift2].
    rewrite S_INR.
    repeat split; f_equal; f_equal; field.
Qed.

End LoneBody.



(** ** The velocities after a resolution *)

Lemma Vector2_eta (v : Vector2) (a b : number) :
  x v = a -> y v = b -> v = mkVector2 a b.
Proof. destruct v. cbn. now intros -> ->. Qed.

Lemma Bounds_eta (s : Bounds) (a b : number) :
  width s = a -> height s = b -> s = mkBounds a b.
Proof. destruct s. cbn. now intros -> ->. Qed.

(** The velocities that [resolveCollision] returns when it does not
    return early. *)
Lemma resolveCollision_velocities (bodyA bodyB : PhysicsBody) :
  isStatic bodyA && isStatic bodyB = false ->
  (Contact.relativeVelocity bodyA bodyB >? Num 0)%js = false ->
  let j := Contact.impulse bodyA bodyB in
  let nx := Contact.nx bodyA bodyB in
  let ny := Contact.ny bodyA bodyB in
  velocity (fst (resolveCollision bodyA bodyB))
  = (if isStatic bodyA then velocity bodyA
     else mkVector2 (x (velocity bodyA) - j * nx)%js
                    (y (velocity bodyA) - j * ny)%js)
  /\ velocity (snd (resolveCollision bodyA bodyB))
     = (if isStatic bodyB then velocity bodyB
        else mkVector2 (x (velocity bodyB) + j * nx)%js
                       (y (velocity bodyB) + j * ny)%js).
Proof.
  intros Hs Hrv j nx ny.
  rewrite resolveCollision_proceeds by assumption.
  destruct (separate_velocity bodyA bodyB (fst (applyImpulse bodyA bodyB))
              (snd (applyImpulse bodyA bodyB))) as [-> ->].
  unfold applyImpulse. cbn [fst snd].
  destruct (isStatic bodyA), (isStatic bodyB); split; reflexivity.
Qed.

(** The velocities after a resolution that does not return early, for
    a real relative velocity [r] and a real restitution [e]: they are real,
    their difference along the normal is [-e * r], and their components
    across the normal are the former ones. *)
Lemma resolved_velocities_real (bodyA bodyB : PhysicsBody) (e r : R) :
  isStatic bodyA && isStatic bodyB = false ->
  Contact.relativeVelocity bodyA bodyB = Num r -> r <= 0 ->
  Contact.restitution bodyA bodyB = Num e ->
  let bodyA' := fst (resolveCollision bodyA bodyB) in
  let bodyB' := snd (resolveCollision bodyA bodyB) in
  exists vax vay vbx vby n1 n2,
    velocity bodyA' = mkVector2 (Num vax) (Num vay)
    /\ velocity bodyB' = mkVector2 (Num vbx) (Num vby)
    /\ Contact.nx bodyA bodyB = Num n1 /\ Contact.ny bodyA bodyB = Num n2
    /\ (vbx - vax) * n1 + (vby - vay) * n2 = - e * r
    /\ tangentVelocity bodyA bodyB bodyA' = tangentVelocity bodyA bodyB bodyA
    /\ tangentVelocity bodyA bodyB bodyB' = tangentVelocity bodyA bodyB bodyB.
Proof.
  intros Hs Hr Hr0 He bodyA' bodyB'.
  assert ((Contact.relativeVelocity bodyA bodyB >? Num 0)%js = false) as Hgt
    by (rewrite Hr; now apply gt_Num_false).
  destruct (resolveCollision_velocities bodyA bodyB Hs Hgt) as [HvA HvB].
  destruct (relativeVelocity_real bodyA bodyB r Hr)
    as (vax & vay & vbx & vby & n1 & n2
        & Hvax & Hvay & Hvbx & Hvby & Hn1 & Hn2 & Hunit & Hrdef).
  unfold tangentVelocity. fold bodyA' bodyB' in HvA, HvB.
  rewrite HvA, HvB. unfold Contact.impulse. rewrite He, Hr, Hn1, Hn2.
  destruct (isStatic bodyA), (isStatic bodyB); try discriminate;
    cbn [negb andb x y]; rewrite ?Hvax, ?Hvay, ?Hvbx, ?Hvby;
    cbn [Number.add Number.sub Number.mul Number.neg
         Number.lift1 Number.lift2];
    rewrite ?div_Num by lra;
    cbn [Number.add Number.sub Number.mul Number.lift2].
  - exists vax, vay, (vbx + - (1 + e) * r * n1), (vby + - (1 + e) * r * n2),
      n1, n2.
    rewrite <- (Vector2_eta (velocity bodyA) _ _ Hvax Hvay).
    repeat split; try (f_equal; ring).
    replace ((vbx + - (1 + e) * r * n1 - vax) * n1
             + (vby + - (1 + e) * r * n2 - vay) * n2)
      with ((vbx - vax) * n1 + (vby - vay) * n2
            - (1 + e) * r * (n1 * n1 + n2 * n2)) by ring.
    rewrite Hunit, <- Hrdef. ring.
  - exists (vax - - (1 + e) * r * n1), (vay - - (1 + e) * r * n2), vbx, vby,
      n1, n2.
    rewrite <- (Vector2_eta (velocity bodyB) _ _ Hvbx Hvby).
    repeat split; try (f_equal; ring).
    replace ((vbx - (vax - - (1 + e) * r * n1)) * n1
             + (vby - (vay - - (1 + e) * r * n2)) * n2)
      with ((vbx - vax) * n1 + (vby - vay) * n2
            - (1 + e) * r * (n1 * n1 + n2 * n2)) by ring.
    rewrite Hunit, <- Hrdef. ring.
  - exists (vax - - (1 + e) * r / 2 * n1), (vay - - (1 + e) * r / 2 * n2),
      (vbx + - (1 + e) * r / 2 * n1), (vby + - (1 + e) * r / 2 * n2), n1, n2.
    repeat split; try (f_equal; ring).
    replace ((vbx + - (1 + e) * r / 2 * n1
              - (vax - - (1 + e) * r / 2 * n1)) * n1
             + (vby + - (1 + e) * r / 2 * n2
                - (vay - - (1 + e) * r / 2 * n2)) * n2)
      with ((vbx - vax) * n1 + (vby - vay) * n2
            - (1 + e) * r * (n1 * n1 + n2 * n2)) by field.
    rewrite Hunit, <- Hrdef. ring.
Qed.



(** ** The geometry of a pair with real coordinates *)

Section Geometry.

Variables bodyA bodyB : PhysicsBody.
Variables xa ya wa ha xb yb wb hb : R.
Hypothesis HpA : position bodyA = mkVector2 (Num xa) (Num ya).
Hypothesis HsA : bounds bodyA = mkBounds (Num wa) (Num ha).
Hypothesis HpB : position bodyB = mkVector2 (Num xb) (Num yb).
Hypothesis HsB : bounds bodyB = mkBounds (Num wb) (Num hb).

Lemma dx_Num : Contact.dx bodyA bodyB = Num (xb + wb / 2 - (xa + wa / 2)).
Proof.
  unfold Contact.dx. rewrite HpA, HsA, HpB, HsB. cbn [x width].
  now rewrite !div_Num by lra.
Qed.

Lemma dy_Num : Contact.dy bodyA bodyB = Num (yb + hb / 2 - (ya + ha / 2)).
Proof.
  unfold Contact.dy. rewrite HpA, HsA, HpB, HsB. cbn [y height].
  now rewrite !div_Num by lra.
Qed.

Lemma length_Num :
  Contact.length bodyA bodyB
  = Num (sqrt ((xb + wb / 2 - (xa + wa / 2)) * (xb + wb / 2 - (xa + wa / 2))
               + (yb + hb / 2 - (ya + ha / 2))
                 * (yb + hb / 2 - (ya + ha / 2)))).
Proof.
  unfold Contact.length. rewrite dx_Num, dy_Num.
  cbn [Number.mul Number.add Number.lift2 Math.sqrt].
  set (d1 := xb + wb / 2 - (xa + wa / 2)).
  set (d2 := yb + hb / 2 - (ya + ha / 2)).
  destruct (Rlt_dec (d1 * d1 + d2 * d2) 0) as [Hneg|_]; [|reflexivity].
  pose proof (Rle_0_sqr d1). pose proof (Rle_0_sqr d2).
  unfold Rsqr in *. lra.
Qed.

Lemma overlap_Num :
  Contact.overlap bodyA bodyB
  = Num ((wa + wb) / 2 - Rabs (xb + wb / 2 - (xa + wa / 2))).
Proof.
  unfold Contact.overlap. rewrite dx_Num, HsA, HsB. cbn [width].
  cbn [Number.add Number.lift2]. now rewrite div_Num by lra.
Qed.

Lemma normal_Num (l : R) :
  l = sqrt ((xb + wb / 2 - (xa + wa / 2)) * (xb + wb / 2 - (xa + wa / 2))
            + (yb + hb / 2 - (ya + ha / 2)) * (yb + hb / 2 - (ya + ha / 2))) ->
  l <> 0 ->
  Contact.nx bodyA bodyB = Num ((xb + wb / 2 - (xa + wa / 2)) / l)
  /\ Contact.ny bodyA bodyB = Num ((yb + hb / 2 - (ya + ha / 2)) / l).
Proof.
  intros Hl Hl0. unfold Contact.nx, Contact.ny.
  rewrite length_Num, dx_Num, dy_Num, <- Hl.
  now rewrite !div_Num by assumption.
Qed.

End Geometry.

(** A pair whose normal has real components has real corners and sizes,
    and a positive centre distance. *)
Lemma geometry_real (bodyA bodyB : PhysicsBody) (n1 n2 : R) :
  Contact.nx bodyA bodyB = Num n1 -> Contact.ny bodyA bodyB = Num n2 ->
  exists xa ya wa ha xb yb wb hb l,
    position bodyA = mkVector2 (Num xa) (Num ya)
    /\ bounds bodyA = mkBounds (Num wa) (Num ha)
    /\ position bodyB = mkVector2 (Num xb) (Num yb)
    /\ bounds bodyB = mkBounds (Num wb) (Num hb)
    /\ l = sqrt ((xb + wb / 2 - (xa + wa / 2)) * (xb + wb / 2 - (xa + wa / 2))
                 + (yb + hb / 2 - (ya + ha / 2))
                   * (yb + hb / 2 - (ya + ha / 2)))
    /\ 0 < l
    /\ n1 = (xb + wb / 2 - (xa + wa / 2)) / l
    /\ n2 = (yb + hb / 2 - (ya + ha / 2)) / l.
Proof.
  intros Hn1 Hn2.
  pose proof Hn1 as Hx. pose proof Hn2 as Hy.
  unfold Contact.nx in Hx. unfold Contact.ny in Hy.
  apply div_Num_inv in Hx as (d1 & l & Hdx & Hl & Hl0 & Hn1').
  apply div_Num_inv in Hy as (d2 & l' & Hdy & _ & _ & _).
  pose proof Hdx as Hdx'. pose proof Hdy as Hdy'.
  unfold Contact.dx in Hdx'. unfold Contact.dy in Hdy'.
  apply lift2_Num_inv in Hdx' as (p & q & Hp & Hq & _).
  apply lift2_Num_inv in Hp as (xb & hwb & Hxb & Hwb & _).
  apply lift2_Num_inv in Hq as (xa & hwa & Hxa & Hwa & _).
  apply div_Num_inv in Hwb as (wb & ? & Hwb & _).
  apply div_Num_inv in Hwa as (wa & ? & Hwa & _).
  apply lift2_Num_inv in Hdy' as (p' & q' & Hp' & Hq' & _).
  apply lift2_Num_inv in Hp' as (yb & hhb & Hyb & Hhb & _).
  apply lift2_Num_inv in Hq' as (ya & hha & Hya & Hha & _).
  apply div_Num_inv in Hhb as (hb & ? & Hhb & _).
  apply div_Num_inv in Hha as (ha & ? & Hha & _).
  pose proof (Vector2_eta _ _ _ Hxa Hya) as HpA.
  pose proof (Vector2_eta _ _ _ Hxb Hyb) as HpB.
  pose proof (Bounds_eta _ _ _ Hwa Hha) as HsA.
  pose proof (Bounds_eta _ _ _ Hwb Hhb) as HsB.
  rewrite (length_Num bodyA bodyB xa ya wa ha xb yb wb hb HpA HsA HpB HsB)
    in Hl.
  injection Hl as Hl.
  destruct (normal_Num bodyA bodyB xa ya wa ha xb yb wb hb HpA HsA HpB HsB
              l (eq_sym Hl) Hl0) as [Hnx Hny].
  rewrite Hn1 in Hnx. rewrite Hn2 in Hny.
  injection Hnx as Hnx. injection Hny as Hny.
  exists xa, ya, wa, ha, xb, yb, wb, hb, l.
  repeat split; try assumption; [now symmetry|].
  assert (0 <= l) by (rewrite <- Hl; apply sqrt_pos). lra.
Qed.

(** The positions that [resolveCollision] returns when it does not return
    early. *)
Lemma resolveCollision_positions (bodyA bodyB : PhysicsBody) :
  isStatic bodyA && isStatic bodyB = false ->
  (Contact.relativeVelocity bodyA bodyB >? Num 0)%js = false ->
  let ov := Contact.overlap bodyA bodyB in
  let nx := Contact.nx bodyA bodyB in
  let ny := Contact.ny bodyA bodyB in
  position (fst (resolveCollision bodyA bodyB))
  = (if (ov >? Num 0)%js && negb (isStatic bodyA)
     then if isStatic bodyB
          then mkVector2 (x (position bodyA) - ov * nx)%js
                         (y (position bodyA) - ov * ny)%js
          else mkVector2 (x (position bodyA) - ov * nx / Num 2)%js
                         (y (position bodyA) - ov * ny / Num 2)%js
     else position bodyA)
  /\ position (snd (resolveCollision bodyA bodyB))
     = (if (ov >? Num 0)%js && negb (isStatic bodyB)
        then if isStatic bodyA
             then mkVector2 (x (position bodyB) + ov * nx)%js
                            (y (position bodyB) + ov * ny)%js
             else mkVector2 (x (position bodyB) + ov * nx / Num 2)%js
                            (y (position bodyB) + ov * ny / Num 2)%js
        else position bodyB).
Proof.
  intros Hs Hrv ov nx ny.
  rewrite resolveCollision_proceeds by assumption.
  destruct (applyImpulse_position bodyA bodyB) as [HpA HpB].
  unfold separate. fold ov nx ny.
  destruct (ov >? Num 0)%js, (isStatic bodyA), (isStatic bodyB);
    try discriminate; cbn [negb andb fst snd set_position position];
    rewrite ?HpA, ?HpB; split; reflexivity.
Qed.

(** ** The effect of the positional correction *)

Section CorrectionArithmetic.

Variables d1 d2 : R.

Lemma Rabs_le_norm : Rabs d1 <= sqrt (d1 * d1 + d2 * d2).
Proof.
  rewrite <- (sqrt_Rsqr_abs d1). unfold Rsqr.
  apply sqrt_le_1; pose proof (Rle_0_sqr d1); pose proof (Rle_0_sqr d2);
    unfold Rsqr in *; lra.
Qed.

Lemma scaled_norm (k : R) :
  0 <= k ->
  sqrt (d1 * k * (d1 * k) + d2 * k * (d2 * k))
  = sqrt (d1 * d1 + d2 * d2) * k.
Proof.
  intros Hk.
  replace (d1 * k * (d1 * k) + d2 * k * (d2 * k))
    with ((d1 * d1 + d2 * d2) * (k * k)) by ring.
  pose proof (Rle_0_sqr d1). pose proof (Rle_0_sqr d2). unfold Rsqr in *.
  rewrite sqrt_mult by nra. now rewrite sqrt_square.
Qed.

Variables W ov l : R.
Hypothesis Hl : l = sqrt (d1 * d1 + d2 * d2).
Hypothesis Hl0 : 0 < l.
Hypothesis Hov : ov = W - Rabs d1.
Hypothesis Hov0 : 0 < ov.

Lemma stretch_pos : 0 < 1 + ov / l.
Proof.
  assert (0 < ov / l) by (apply Rdiv_lt_0_compat; assumption). lra.
Qed.

(** The overlap left after the centres have moved apart by [ov] along the
    normal. *)
Lemma overlap_after :
  W - Rabs (d1 * (1 + ov / l)) = ov * (1 - Rabs d1 / l)
  /\ 0 <= ov * (1 - Rabs d1 / l) <= ov
  /\ (d2 = 0 -> ov * (1 - Rabs d1 / l) = 0).
Proof.
  pose proof stretch_pos as Hk.
  pose proof Rabs_le_norm as Hle. rewrite <- Hl in Hle.
  pose proof (Rabs_pos d1) as Hd.
  assert (0 <= Rabs d1 / l <= 1) as [Hq0 Hq1].
  { split.
    - apply Rmult_le_pos; [assumption | apply Rlt_le, Rinv_0_lt_compat, Hl0].
    - apply Rmult_le_reg_r with l; [assumption|].
      replace (Rabs d1 / l * l) with (Rabs d1) by (field; lra). lra. }
  split; [|split].
  - rewrite Rabs_mult, (Rabs_pos_eq (1 + ov / l)) by lra.
    rewrite Hov. field. lra.
  - split; nra.
  - intros Hd2. subst d2.
    assert (l = Rabs d1) as Hlabs.
    { rewrite Hl. replace (d1 * d1 + 0 * 0) with (Rsqr d1)
        by (unfold Rsqr; ring).
      apply sqrt_Rsqr_abs. }
    rewrite <- Hlabs. field. lra.
Qed.

End CorrectionArithmetic.

(** The pair after its centres have moved apart by [ov] along the normal,
    sizes unchanged: same normal, overlap [ov * (1 - |dx| / length)]. *)
Lemma corrected_geometry (bodyA bodyB bodyA' bodyB' : PhysicsBody)
  (xa ya wa ha xb yb wb hb xa' ya' xb' yb' l ov : R) :
  let d1 := xb + wb / 2 - (xa + wa / 2) in
  let d2 := yb + hb / 2 - (ya + ha / 2) in
  position bodyA' = mkVector2 (Num xa') (Num ya') ->
  bounds bodyA' = mkBounds (Num wa) (Num ha) ->
  position bodyB' = mkVector2 (Num xb') (Num yb') ->
  bounds bodyB' = mkBounds (Num wb) (Num hb) ->
  l = sqrt (d1 * d1 + d2 * d2) -> 0 < l ->
  ov = (wa + wb) / 2 - Rabs d1 -> 0 < ov ->
  xb' - xa' = xb - xa + ov * (d1 / l) ->
  yb' - ya' = yb - ya + ov * (d2 / l) ->
  Contact.nx bodyA' bodyB' = Num (d1 / l)
  /\ Contact.ny bodyA' bodyB' = Num (d2 / l)
  /\ Contact.overlap bodyA' bodyB' = Num (ov * (1 - Rabs d1 / l)).
Proof.
  intros d1 d2 HpA HsA HpB HsB Hl Hl0 Hov Hov0 Hx Hy.
  pose proof (stretch_pos ov l Hl0 Hov0) as Hk.
  assert (xb' + wb / 2 - (xa' + wa / 2) = d1 * (1 + ov / l)) as Hd1.
  { unfold d1 in *. replace (xb' + wb / 2 - (xa' + wa / 2))
      with (xb' - xa' + wb / 2 - wa / 2) by ring.
    rewrite Hx. field. lra. }
  assert (yb' + hb / 2 - (ya' + ha / 2) = d2 * (1 + ov / l)) as Hd2.
  { unfold d2 in *. replace (yb' + hb / 2 - (ya' + ha / 2))
      with (yb' - ya' + hb / 2 - ha / 2) by ring.
    rewrite Hy. field. lra. }
  assert (sqrt ((xb' + wb / 2 - (xa' + wa / 2))
                * (xb' + wb / 2 - (xa' + wa / 2))
                + (yb' + hb / 2 - (ya' + ha / 2))
                  * (yb' + hb / 2 - (ya' + ha / 2)))
          = l * (1 + ov / l)) as Hl'.
  { rewrite Hd1, Hd2, scaled_norm by lra. now rewrite <- Hl. }
  destruct (normal_Num bodyA' bodyB' xa' ya' wa ha xb' yb' wb hb
              HpA HsA HpB HsB (l * (1 + ov / l)) (eq_sym Hl'))
    as [Hnx Hny]; [nra|].
  rewrite Hnx, Hny, Hd1, Hd2.
  rewrite (overlap_Num bodyA' bodyB' xa' ya' wa ha xb' yb' wb hb
             HpA HsA HpB HsB), Hd1.
  destruct (overlap_after d1 d2 ((wa + wb) / 2) ov l Hl Hl0 Hov Hov0)
    as (-> & _).
  repeat split; f_equal; field; lra.
Qed.

(** The normal and the overlap read positions and sizes only. *)
Lemma contact_geometry_congr (bodyA bodyB bodyA' bodyB' : PhysicsBody) :
  position bodyA' = position bodyA -> bounds bodyA' = bounds bodyA ->
  position bodyB' = position bodyB -> bounds bodyB' = bounds bodyB ->
  Contact.nx bodyA' bodyB' = Contact.nx bodyA bodyB
  /\ Contact.ny bodyA' bodyB' = Contact.ny bodyA bodyB
  /\ Contact.overlap bodyA' bodyB' = Contact.overlap bodyA bodyB.
Proof.
  intros HpA HsA HpB HsB.
  unfold Contact.nx, Contact.ny, Contact.overlap, Contact.length,
    Contact.dx, Contact.dy.
  now rewrite HpA, HsA, HpB, HsB.
Qed.

Lemma resolveCollision_bounds (bodyA bodyB : PhysicsBody) :
  bounds (fst (resolveCollision bodyA bodyB)) = bounds bodyA
  /\ bounds (snd (resolveCollision bodyA bodyB)) = bounds bodyB.
Proof.
  destruct (resolveCollision_parameters bodyA bodyB) as [HA HB].
  split; [apply HA | apply HB].
Qed.

(** The geometry of the pair after a resolution that applied the
    positional correction. *)
Lemma resolved_geometry_real (bodyA bodyB : PhysicsBody) (r : R) :
  isStatic bodyA && isStatic bodyB = false ->
  Contact.relativeVelocity bodyA bodyB = Num r -> r <= 0 ->
  (Contact.overlap bodyA bodyB >? Num 0)%js = true ->
  let bodyA' := fst (resolveCollision bodyA bodyB) in
  let bodyB' := snd (resolveCollision bodyA bodyB) in
  exists d1 d2 l ov,
    Contact.dx bodyA bodyB = Num d1 /\ Contact.dy bodyA bodyB = Num d2
    /\ l = sqrt (d1 * d1 + d2 * d2) /\ 0 < l
    /\ Contact.overlap bodyA bodyB = Num ov /\ 0 < ov
    /\ Contact.nx bodyA' bodyB' = Contact.nx bodyA bodyB
    /\ Contact.ny bodyA' bodyB' = Contact.ny bodyA bodyB
    /\ Contact.overlap bodyA' bodyB' = Num (ov * (1 - Rabs d1 / l)).
Proof.
  intros Hs Hr Hr0 Hgt bodyA' bodyB'.
  assert ((Contact.relativeVelocity bodyA bodyB >? Num 0)%js = false) as Hrv
    by (rewrite Hr; now apply gt_Num_false).
  destruct (resolveCollision_positions bodyA bodyB Hs Hrv) as [HpA' HpB'].
  destruct (resolveCollision_bounds bodyA bodyB) as [HsA' HsB'].
  fold bodyA' in HpA', HsA'. fold bodyB' in HpB', HsB'.
  rewrite Hgt in HpA', HpB'. cbn [andb] in HpA', HpB'.
  destruct (relativeVelocity_real bodyA bodyB r Hr)
    as (_ & _ & _ & _ & n1 & n2 & _ & _ & _ & _ & Hn1 & Hn2 & _ & _).
  destruct (geometry_real bodyA bodyB n1 n2 Hn1 Hn2)
    as (xa & ya & wa & ha & xb & yb & wb & hb & l
        & HpA & HsA & HpB & HsB & Hl & Hl0 & Hn1' & Hn2').
  set (d1 := xb + wb / 2 - (xa + wa / 2)) in *.
  set (d2 := yb + hb / 2 - (ya + ha / 2)) in *.
  pose proof (overlap_Num bodyA bodyB xa ya wa ha xb yb wb hb
                HpA HsA HpB HsB) as Hov.
  fold d1 in Hov. set (ov := (wa + wb) / 2 - Rabs d1) in *.
  assert (0 < ov) as Hov0 by (rewrite Hov in Hgt; now apply gt_Num in Hgt).
  rewrite HsA in HsA'. rewrite HsB in HsB'.
  rewrite Hov, Hn1, Hn2, HpA in HpA'. rewrite Hov, Hn1, Hn2, HpB in HpB'.
  cbn [x y Number.sub Number.add Number.mul Number.lift2] in HpA', HpB'.
  rewrite ?div_Num in HpA', HpB' by lra.
  cbn [Number.sub Number.add Number.lift2] in HpA', HpB'.
  exists d1, d2, l, ov.
  rewrite (dx_Num bodyA bodyB xa ya wa ha xb yb wb hb HpA HsA HpB HsB).
  rewrite (dy_Num bodyA bodyB xa ya wa ha xb yb wb hb HpA HsA HpB HsB).
  fold d1 d2. rewrite Hn1, Hn2, Hn1', Hn2'.
  repeat (split; [first [reflexivity | assumption]|]).
  destruct (isStatic bodyA), (isStatic bodyB); try discriminate;
    cbn [negb] in HpA', HpB';
    eapply (corrected_geometry bodyA bodyB bodyA' bodyB'
              xa ya wa ha xb yb wb hb);
    try eassumption; try reflexivity;
    rewrite ?Hn1', ?Hn2'; unfold d1, d2; lra.
Qed.



(** ** A second resolution of the same pair *)

Lemma resolveCollision_separating (bodyA bodyB : PhysicsBody) :
  (Contact.relativeVelocity bodyA bodyB >? Num 0)%js = true ->
  resolveCollision bodyA bodyB = (bodyA, bodyB).
Proof.
  intros Hrv. unfold resolveCollision. rewrite Hrv.
  now destruct (isStatic bodyA && isStatic bodyB).
Qed.



(** ** Conservation *)



(** ** Coinciding centres *)

Lemma mul_NaN_r (a : number) : (a * NaN)%js = NaN.
Proof. now destruct a. Qed.

Lemma add_NaN_r (a : number) : (a + NaN)%js = NaN.
Proof. now destruct a. Qed.

Lemma sub_NaN_r (a : number) : (a - NaN)%js = NaN.
Proof. now destruct a. Qed.



(** ** Fields the resolver does not read *)

(** X17.  Detection and resolution do not read [mass], [friction] or the
    acceleration accumulator: two pairs that differ in these fields only
    collide alike and get the same positions and velocities. *)
Theorem mass_and_friction_unused (a1 a2 b1 b2 : PhysicsBody) :
  same_kinematics a1 a2 -> same_kinematics b1 b2 ->
  isColliding a2 b2 = isColliding a1 b1
  /\ same_kinematics (fst (resolveCollision a1 b1))
       (fst (resolveCollision a2 b2))
  /\ same_kinematics (snd (resolveCollision a1 b1))
       (snd (resolveCollision a2 b2)).
Proof.
  destruct a1 as [pa va ca ma ea fa sa da], a2 as [pa' va' ca' ma' ea' fa' sa' da'],
    b1 as [pb vb cb mb eb fb sb db], b2 as [pb' vb' cb' mb' eb' fb' sb' db'].
  unfold same_kinematics at 1 2. cbn [position velocity restitution isStatic bounds].
  intros (-> & -> & -> & -> & ->) (-> & -> & -> & -> & ->).
  split; [reflexivity|].
  unfold resolveCollision, separate, applyImpulse, Contact.relativeVelocity,
    Contact.overlap, Contact.impulse, Contact.restitution,
    Contact.relativeVelocityX, Contact.relativeVelocityY,
    Contact.nx, Contact.ny, Contact.length, Contact.dx, Contact.dy.
  cbn [position velocity restitution isStatic bounds].
  destruct sa, sb; cbn [andb negb];
    try (split; repeat split; reflexivity);
    match goal with
    | |- context [if (?c >? Num 0)%js then _ else _] =>
        destruct (c >? Num 0)%js
    end;
    try (split; repeat split; reflexivity);
    cbn [fst snd set_position set_velocity position velocity bounds];
    match goal with
    | |- context [if (?c >? Num 0)%js then _ else _] =>
        destruct (c >? Num 0)%js
    end;
    split; repeat split; reflexivity.
Qed.

(** A heavy rough box and a light smooth one at the same place with the
    same velocity collide with a wall in the same way. *)
Lemma mass_and_friction_unused_witness :
  let light := box 0 0 10 10 3 0 1 false in
  let heavy :=
    mkBody (position light) (velocity light) (mkVector2 (Num 7) (Num 7))
           (Num 1000) (restitution light) (Num (1 / 2)) false
           (bounds light) in
  let wall := box 8 0 10 10 0 0 1 true in
  velocity (fst (resolveCollision heavy wall))
  = velocity (fst (resolveCollision light wall)).
Proof.
  intros light heavy wall.
  destruct (mass_and_friction_unused light heavy wall wall) as (_ & HA & _).
  - repeat split.
  - repeat split.
  - apply HA.
Defined.

(** ** Energy *)



(** ** A sub-step without collisions *)

Lemma fold_collide_none (ps : list (ref * ref)) (h : Heap) :
  (forall a b, In (a, b) ps -> isColliding (h a) (h b) = false) ->
  fold_left collide ps h = h.
Proof.
  induction ps as [|[a b] ps IH]; intros Hnone; [reflexivity|].
  cbn [fold_left].
  assert (collide h (a, b) = h) as ->.
  { unfold collide. rewrite Hnone; [reflexivity | now left]. }
  apply IH. intros a' b' Hin. apply Hnone. now right.
Qed.

(** X19.  When, after integration, no two registered bodies overlap or
    touch, the sub-step is the integration alone: each registered body that
    is not static has made one Euler step and nothing else has changed. *)
Theorem step_without_contact (e : PhysicsEngine) (deltaTime : number)
  (h : Heap) :
  (forall a b, In (a, b) (pairs (bodies e)) ->
     isColliding (integrateAll e deltaTime h a) (integrateAll e deltaTime h b)
     = false) ->
  step e deltaTime h = integrateAll e deltaTime h
  /\ (NoDup (bodies e) ->
      forall r, In r (bodies e) -> isStatic (h r) = false ->
                step e deltaTime h r = integrate (gravity e) deltaTime (h r)).
Proof.
  intros Hnone.
  assert (step e deltaTime h = integrateAll e deltaTime h) as Hstep
    by (unfold step, checkCollisions; now apply fold_collide_none).
  split; [exact Hstep|].
  intros Hnd r Hin Hs. rewrite Hstep. now apply integrateAll_once.
Qed.

(** Two boxes far apart, falling side by side. *)
Lemma step_without_contact_witness :
  let e := addBody 1%nat (addBody 0%nat new_PhysicsEngine) in
  let h := heap_of2 (box 0 0 1 1 0 0 0 false) (box 100 0 1 1 0 0 0 false) in
  step e fixedTimeStep h = integrateAll e fixedTimeStep h.
Proof.
  intros e h.
  apply (step_without_contact e fixedTimeStep h).
  intros a b Hin.
  assert (a = 0%nat /\ b = 1%nat) as [-> ->].
  { cbn in Hin. destruct Hin as [[= <- <-]|[]]. now split. }
  assert (NoDup (bodies e)) as Hnd
    by (repeat constructor; cbn; intuition discriminate).
  rewrite !integrateAll_once by (first [exact Hnd | cbn; tauto | reflexivity]).
  unfold isColliding, integrate, resetAcceleration, updatePosition,
    updateVelocity, applyGravity, fixedTimeStep, Number.gt.
  cbn [h heap_of2 box e addBody new_PhysicsEngine gravity
       set_acceleration set_velocity set_position
       position velocity acceleration bounds x y width height
       Number.add Number.mul Number.lift2].
  rewrite negb_false_iff, !orb_true_iff, !lt_Num. left. left. left. lra.
Defined.

(** ** Configuration *)

(** X20.  [initialize] keeps the registry; a key that the configuration
    omits falls back to the current gravity but to the constants [1] and
    [3] for [timeScale] and [maxSteps], so an empty configuration undoes
    [setTimeScale] and keeps [setGravity]; a supplied [timeScale] is stored
    as it is, negative or not; and initialising twice with the same
    configuration is the same as once. *)
Theorem initialize_fallbacks (config : PhysicsConfig) (e : PhysicsEngine) :
  bodies (initialize config e) = bodies e
  /\ initialize config (initialize config e) = initialize config e
  /\ (forall gx gy scale,
         initialize (mkConfig None None None)
           (setTimeScale scale (setGravity gx gy e))
         = mkEngine (mkVector2 gx gy) (Num 1) (Num 3) (bodies e))
  /\ (forall scale, cfg_timeScale config = Some scale ->
                    timeScale (initialize config e) = scale)
  /\ (forall g, cfg_gravity config = Some g ->
                forall e', bodies e' = bodies e ->
                           initialize config e' = initialize config e).
Proof.
  destruct config as [[g|] [s|] [m|]]; destruct e as [g0 s0 m0 bs];
    unfold initialize; cbn; repeat split; intros;
    try congruence; try discriminate ;
    match goal with
    | H : bodies ?e' = _ |- _ => destruct e'; cbn in *; congruence
    end.
Qed.

(** A configuration with a negative time scale only. *)
Lemma initialize_fallbacks_witness :
  timeScale (initialize (mkConfig None (Some (Num (-2))) None)
               new_PhysicsEngine) = Num (-2).
Proof.
  destruct (initialize_fallbacks (mkConfig None (Some (Num (-2))) None)
              new_PhysicsEngine) as (_ & _ & _ & Hts & _).
  now apply Hts.
Defined.

(** ** How [NaN] spreads *)

Lemma add_NaN_l (a : number) : (NaN + a)%js = NaN.
Proof. reflexivity. Qed.

Lemma sub_NaN_l (a : number) : (NaN - a)%js = NaN.
Proof. reflexivity. Qed.

Lemma lt_NaN_r (a : number) : (a <? NaN)%js = false.
Proof. now destruct a. Qed.

(** X21.  Nothing in the engine stops a [NaN]: a body whose velocity is
    [(NaN, NaN)] gets the position [(NaN, NaN)] from the next integration;
    a body at [(NaN, NaN)] passes the AABB test with every body, on either
    side; and resolving such a pair, unless both are static, overwrites
    with [NaN] the velocity of each body of the pair that is not static. *)
Theorem NaN_spreads (bodyA bodyB : PhysicsBody) :
  (velocity bodyA = mkVector2 NaN NaN ->
   forall g deltaTime,
     position (integrate g deltaTime bodyA) = mkVector2 NaN NaN)
  /\ (position bodyA = mkVector2 NaN NaN ->
      isColliding bodyA bodyB = true /\ isColliding bodyB bodyA = true
      /\ (isStatic bodyA && isStatic bodyB = false ->
          (isStatic bodyA = false ->
           velocity (fst (resolveCollision bodyA bodyB)) = mkVector2 NaN NaN)
          /\ (isStatic bodyB = false ->
              velocity (snd (resolveCollision bodyA bodyB))
              = mkVector2 NaN NaN))).
Proof.
  split.
  - intros Hv g deltaTime.
    unfold integrate, resetAcceleration, updatePosition, updateVelocity,
      applyGravity.
    cbn [set_acceleration set_velocity set_position position velocity
         acceleration x y].
    rewrite Hv. cbn [x y]. now rewrite !add_NaN_l, !add_NaN_r.
  - intros Hp.
    assert (isColliding bodyA bodyB = true) as Hab.
    { unfold isColliding, Number.gt. rewrite Hp. cbn [x y].
      now rewrite !add_NaN_l, !lt_NaN_r. }
    split; [exact Hab|]. split; [now rewrite isColliding_symmetric_aux|].
    intros Hs.
    assert (Contact.nx bodyA bodyB = NaN /\ Contact.ny bodyA bodyB = NaN)
      as [Hnx Hny].
    { unfold Contact.nx, Contact.ny, Contact.length, Contact.dx, Contact.dy.
      rewrite Hp. cbn [x y]. now rewrite !add_NaN_l, !sub_NaN_r. }
    assert ((Contact.relativeVelocity bodyA bodyB >? Num 0)%js = false)
      as Hgt.
    { unfold Contact.relativeVelocity.
      now rewrite Hnx, Hny, !mul_NaN_r, add_NaN_r. }
    destruct (resolveCollision_velocities bodyA bodyB Hs Hgt) as [HvA HvB].
    rewrite Hnx, Hny, !mul_NaN_r in HvA, HvB.
    rewrite !sub_NaN_r in HvA. rewrite !add_NaN_r in HvB.
    split; [intros HsA; now rewrite HsA in HvA|].
    intros HsB; now rewrite HsB in HvB.
Qed.

(** A body at [(NaN, NaN)] and a box a thousand units away. *)
Lemma NaN_spreads_witness :
  let lost := set_position (mkVector2 NaN NaN) (box 0 0 1 1 0 0 1 false) in
  let far := box 1000 1000 1 1 0 0 1 false in
  isColliding lost far = true
  /\ velocity (snd (resolveCollision lost far)) = mkVector2 NaN NaN.
Proof.
  intros lost far.
  destruct (NaN_spreads lost far) as (_ & Hpos).
  destruct (Hpos eq_refl) as (Hcol & _ & Hres).
  split; [exact Hcol|].
  destruct (Hres eq_refl) as (_ & HB). now apply HB.
Defined.
